(** * upload_postimages_album: a shallow embedding of tools/upload_postimages_album.py

    The script enumerates the .avif files of a folder, drives a browser
    through the upload form of an image host, polls the page for result
    links and retries in batches.  The development below embeds

    - the Python built-ins the script relies on (slices, range, sorted,
      substring tests, truthiness),
    - the browser and the operating system as an environment of oracles
      answering each call from the trace of calls made so far,
    - every function of the script as a computation in a trace-and-exception
      monad,

    and then proves the properties of the specification. *)

From Stdlib Require Import ZArith Lia String Ascii Orders Mergesort Sorted Permutation.
From Equations Require Import Equations.
From stdpp Require Import base list strings gmap pretty.

Local Open Scope Z_scope.

(** ** Python values and built-ins *)

Module Py.

(** Exceptions.  The script only ever distinguishes instances of
    [Exception] (what [except Exception] catches) from the other
    [BaseException]s, [SystemExit] among them. *)
Inductive exn : Type :=
| PyException (cls msg : string)
| SystemExit (msg : string)
| PyBaseException (cls : string).

Definition is_Exception (e : exn) : bool :=
  match e with
  | PyException _ _ => true
  | SystemExit _ | PyBaseException _ => false
  end.

(** The outcome of evaluating an expression: a value or a raised exception. *)
Inductive Res (A : Type) : Type :=
| Ok (a : A)
| Raise (e : exn).
Arguments Ok {A} a.
Arguments Raise {A} e.

(** The double quote character, and the text of [None] in an f-string. *)
Definition dq : string := String (ascii_of_nat 34) EmptyString.
Definition str_int (z : Z) : string := pretty z.
Definition str_opt (o : option string) : string := default "None" o.

(** Truthiness: [if s] for a string, [if o] for an optional string,
    [if l] for a list. *)
Definition truthy_str (s : string) : bool :=
  match s with EmptyString => false | String _ _ => true end.
Definition truthy_opt_str (o : option string) : bool :=
  match o with None => false | Some s => truthy_str s end.
Definition truthy_list {A} (l : list A) : bool :=
  match l with [] => false | _ :: _ => true end.

Definition len {A} (l : list A) : Z := Z.of_nat (length l).

(** [needle in hay] on strings. *)
Fixpoint str_contains (needle hay : string) : bool :=
  String.prefix needle hay
  || match hay with
     | EmptyString => false
     | String _ rest => str_contains needle rest
     end.

(** A slice bound as Python clamps it: a negative index counts from
    the end, and the result is kept within [0, len]. *)
Definition clamp_index (n i : Z) : Z :=
  if decide (i < 0) then Z.max 0 (i + n) else Z.min i n.

(** [l[lo:hi]], where [None] stands for an omitted bound. *)
Definition slice {A} (l : list A) (lo hi : option Z) : list A :=
  let n := len l in
  let lo' := from_option (clamp_index n) 0 lo in
  let hi' := from_option (clamp_index n) n hi in
  drop (Z.to_nat lo') (take (Z.to_nat hi') l).

(** [range(start, stop, step)] enumerated the way the iterator runs:
    from [start], adding [step], while the bound is not reached. *)
Equations range_up (i stop step : Z) (Hstep : 0 < step) : list Z
  by wf (Z.to_nat (stop - i)) lt :=
range_up i stop step Hstep with decide (i < stop) := {
  | left _ => i :: range_up (i + step) stop step Hstep
  | right _ => [] }.
Next Obligation. lia. Qed.

Equations range_down (i stop step : Z) (Hstep : step < 0) : list Z
  by wf (Z.to_nat (i - stop)) lt :=
range_down i stop step Hstep with decide (stop < i) := {
  | left _ => i :: range_down (i + step) stop step Hstep
  | right _ => [] }.
Next Obligation. lia. Qed.

Definition range (start stop step : Z) : Res (list Z) :=
  match decide (0 < step), decide (step < 0) with
  | left Hpos, _ => Ok (range_up start stop step Hpos)
  | right _, left Hneg => Ok (range_down start stop step Hneg)
  | right _, right _ =>
      Raise (PyException "ValueError" "range() arg 3 must not be zero")
  end.

(** [sorted] on strings.  Python compares strings by code point, which
    on UTF-8 encoded text is the byte-wise order of [String.leb]. *)
Module StringLe <: TotalLeBool.
Definition t := string.
Definition leb := String.leb.
Definition leb_total (a b : t) : leb a b = true \/ leb b a = true :=
  String.leb_total a b.
End StringLe.

Module StringSort := Sort StringLe.

Definition sorted (l : list string) : list string := StringSort.sort l.

(** [s.endswith(suffix)]. *)
Definition ends_with (suffix s : string) : bool :=
  let n := String.length s in
  let k := String.length suffix in
  (k <=? n)%nat && String.eqb (String.substring (n - k) k s) suffix.

End Py.
Import Py.


(** ** The world outside the script *)

(** An element handle of the page. *)
Definition Elem : Type := nat.

(** What the script does to the outside world, in the order it does it.
    [EvUploadFiles] marks the entry into [upload_files] with its
    arguments; every other event is a call made to the browser, to the
    terminal or to the operating system. *)
Inductive Event : Type :=
| EvPrint (line : string)
| EvSystem (command : string)
| EvUploadFiles (avif_files : list string) (album_title : option string)
    (headful : bool)
| EvPlaywrightStart
| EvPlaywrightStop
| EvLaunch (headless : bool)
| EvNewPage
| EvGoto (url : string)
| EvClose
| EvQuerySelector (sel : string)
| EvQuerySelectorAll (sel : string)
| EvGetAttribute (el : Elem) (name : string)
| EvEvaluate (el : Elem) (expression : string)
| EvSetInputFiles (el : Elem) (files : list string)
| EvFill (el : Elem) (text : string)
| EvClick (el : Elem)
| EvPress (key : string)
| EvWaitForTimeout (ms : Z).

Definition trace : Type := list Event.

(** A node of the file system: a regular file, or a directory with its
    named entries. *)
#[warnings="-register-all"]
Inductive node : Type :=
| File
| Dir (entries : list (string * node)).

(** A pathlib path: its anchor (empty for a relative path) and its parts. *)
Record PurePath : Type := { anchor : string; parts : list string }.

Definition joinpath (p : PurePath) (rel : list string) : PurePath :=
  {| anchor := anchor p; parts := parts p ++ rel |}.

Fixpoint join_parts (l : list string) : string :=
  match l with
  | [] => EmptyString
  | [x] => x
  | x :: rest => x +:+ "/" +:+ join_parts rest
  end.

(** [str(p)]. *)
Definition str_path (p : PurePath) : string :=
  match parts p with
  | [] => if truthy_str (anchor p) then anchor p else "."
  | _ :: _ => anchor p +:+ join_parts (parts p)
  end.

(** The environment answers every call from the trace of the calls made
    before it: a page may change between two identical queries, and any
    browser call may raise.  The file system and the process environment
    are only read, and do not change while the script runs.

    [fs_lookup p] is the node that [os.stat] finds at [p], if it finds
    one.  When it finds none, [stat_error p] tells how [Path.exists]
    ends: [exists] answers False for the errors it ignores (no such file,
    not a directory, bad descriptor, symbolic link loop), which is
    [None] here, and lets every other error of the call through, such as
    the OSError of a name that is too long or the PermissionError of a
    folder that may not be searched. *)
Record Env : Type := {
  Path : string -> PurePath;
  fs_lookup : PurePath -> option node;
  stat_error : PurePath -> option exn;
  environ_get : string -> option string;
  playwright_start : trace -> Res unit;
  playwright_stop : trace -> Res unit;
  chromium_launch : trace -> bool -> Res unit;
  browser_new_page : trace -> Res unit;
  browser_close : trace -> Res unit;
  page_goto : trace -> string -> Res unit;
  page_query_selector : trace -> string -> Res (option Elem);
  page_query_selector_all : trace -> string -> Res (list Elem);
  page_wait_for_timeout : trace -> Z -> Res unit;
  keyboard_press : trace -> string -> Res unit;
  el_get_attribute : trace -> Elem -> string -> Res (option string);
  el_evaluate : trace -> Elem -> string -> Res bool;
  el_set_input_files : trace -> Elem -> list string -> Res unit;
  el_fill : trace -> Elem -> string -> Res unit;
  el_click : trace -> Elem -> Res unit
}.

(** ** Computations *)

(** A computation extends the trace and ends in a value or an exception. *)
Definition M (A : Type) : Type := trace -> Res A * trace.

Definition ret {A} (a : A) : M A := fun t => (Ok a, t).

Definition raise {A} (e : exn) : M A := fun t => (Raise e, t).

Definition bind {A B} (m : M A) (k : A -> M B) : M B :=
  fun t =>
    match m t with
    | (Ok a, t1) => k a t1
    | (Raise e, t1) => (Raise e, t1)
    end.

Notation "'let*' x ':=' m 'in' k" := (bind m (fun x => k))
  (at level 10, x name, m at level 100, k at level 200).
Notation "m '>>' k" := (bind m (fun _ => k))
  (at level 100, k at level 200, right associativity).

(** A pure expression that may raise. *)
Definition lift {A} (r : Res A) : M A := fun t => (r, t).

(** A call to the outside: it is recorded, and answered from the trace
    before it. *)
Definition perform {A} (ev : Event) (answer : trace -> Res A) : M A :=
  fun t => (answer t, t ++ [ev]).

(** A call that cannot fail. *)
Definition emit (ev : Event) : M unit := fun t => (Ok tt, t ++ [ev]).

(** [try: body / except Exception: handler]. *)
Definition try_except {A} (body handler : M A) : M A :=
  fun t =>
    match body t with
    | (Ok a, t1) => (Ok a, t1)
    | (Raise e, t1) => if is_Exception e then handler t1 else (Raise e, t1)
    end.

(** [async with ctx: body]: the exit runs however the body ends; an
    exception of the exit replaces the outcome of the body. *)
Definition with_exit {A} (body : M A) (exit : M unit) : M A :=
  fun t =>
    let '(r, t1) := body t in
    match exit t1 with
    | (Ok _, t2) => (r, t2)
    | (Raise e, t2) => (Raise e, t2)
    end.

Definition when (b : bool) (m : M unit) : M unit := if b then m else ret tt.

(** ** The script *)

Definition FILE_INPUT_SELECTORS : list string :=
  [ "input[type=" +:+ dq +:+ "file" +:+ dq +:+ "]";
    "input[name=" +:+ dq +:+ "upload[]" +:+ dq +:+ "]";
    "input#uploadFiles";
    "input[name=" +:+ dq +:+ "files[]" +:+ dq +:+ "]" ].

Definition ALBUM_INPUT_SELECTORS : list string :=
  [ "input[name=" +:+ dq +:+ "album_title" +:+ dq +:+ "]";
    "input#album-title";
    "input[placeholder*=" +:+ dq +:+ "Album" +:+ dq +:+ "]";
    "input[placeholder*=" +:+ dq +:+ "album" +:+ dq +:+ "]" ].

Definition UPLOAD_BUTTON_SELECTORS : list string :=
  [ "button:has-text(" +:+ dq +:+ "Upload" +:+ dq +:+ ")";
    "button:has-text(" +:+ dq +:+ "Start upload" +:+ dq +:+ ")";
    "button[type=" +:+ dq +:+ "submit" +:+ dq +:+ "]" ].

(** The two selectors of [collect_result_links]. *)
Definition RESULT_ANCHORS_SELECTOR : string :=
  "a[href*=" +:+ dq +:+ "postimages.org" +:+ dq +:+ "], a[href*=" +:+ dq
  +:+ "postimg.cc" +:+ dq +:+ "], div.result a, div.links a, div#links a".

Definition ALBUM_ANCHOR_SELECTOR : string :=
  "a[href*=" +:+ dq +:+ "/album/" +:+ dq +:+ "], a[href*=" +:+ dq +:+ "/a/"
  +:+ dq +:+ "]".

Definition HOME_URL : string := "https://postimages.org/".

(** The command line, as argparse hands it to [main]. *)
Record Args : Type := {
  dir : string;
  album : option string;
  headful : bool;
  open : bool;
  batch_size : Z
}.

(** How one round of the polling loop ends: with the value the function
    returns, or with the set to go on with. *)
Inductive round : Type :=
| Return (links : list string)
| Continue (found : gset string).

(** The closing loop of [upload_files]: a link is appended unless the
    list built so far already holds it. *)
Definition dedupe (results : list string) : list string :=
  fold_left (fun deduped l => if decide (l ∈ deduped) then deduped else deduped ++ [l])
    results [].

(** [rglob] for a pattern made of a star and a literal suffix: the
    relative paths of all entries, of any kind and at any depth below the
    node, whose name ends with the suffix (names are compared as POSIX
    does, case and leading dots included).  The order in which pathlib
    yields them is that of the directory scans. *)
Fixpoint rglob_star (suffix : string) (n : node) : list (list string) :=
  match n with
  | File => []
  | Dir entries =>
      (fix scan (l : list (string * node)) : list (list string) :=
         match l with
         | [] => []
         | (name, child) :: rest =>
             (if ends_with suffix name then [[name]] else [])
             ++ map (cons name) (rglob_star suffix child)
             ++ scan rest
         end) entries
  end.

Section Script.

Context (E : Env).

(** *** The calls of the browser API *)

Definition print (line : string) : M unit := emit (EvPrint line).

Definition query_selector (sel : string) : M (option Elem) :=
  perform (EvQuerySelector sel) (fun t => page_query_selector E t sel).

Definition query_selector_all (sel : string) : M (list Elem) :=
  perform (EvQuerySelectorAll sel) (fun t => page_query_selector_all E t sel).

Definition get_attribute (el : Elem) (name : string) : M (option string) :=
  perform (EvGetAttribute el name) (fun t => el_get_attribute E t el name).

Definition evaluate (el : Elem) (expression : string) : M bool :=
  perform (EvEvaluate el expression) (fun t => el_evaluate E t el expression).

Definition set_input_files (el : Elem) (files : list string) : M unit :=
  perform (EvSetInputFiles el files) (fun t => el_set_input_files E t el files).

Definition fill (el : Elem) (text : string) : M unit :=
  perform (EvFill el text) (fun t => el_fill E t el text).

Definition click (el : Elem) : M unit :=
  perform (EvClick el) (fun t => el_click E t el).

Definition press (key : string) : M unit :=
  perform (EvPress key) (fun t => keyboard_press E t key).

Definition wait_for_timeout (ms : Z) : M unit :=
  perform (EvWaitForTimeout ms) (fun t => page_wait_for_timeout E t ms).

Definition goto (url : string) : M unit :=
  perform (EvGoto url) (fun t => page_goto E t url).

Definition launch (headless : bool) : M unit :=
  perform (EvLaunch headless) (fun t => chromium_launch E t headless).

Definition new_page : M unit := perform EvNewPage (browser_new_page E).

Definition close : M unit := perform EvClose (browser_close E).

Definition async_playwright {A} (body : M A) : M A :=
  perform EvPlaywrightStart (playwright_start E) >>
  with_exit body (perform EvPlaywrightStop (playwright_stop E)).

(** *** find_file_input *)

(** The loop over the selectors: a matching element ends the function,
    an exception of the query passes on to the next selector. *)
Fixpoint find_file_input_from (sels : list string)
  : M (option Elem * option string) :=
  match sels with
  | [] => ret (None, None)
  | sel :: rest =>
      let* el := try_except (query_selector sel) (ret None) in
      match el with
      | Some e => ret (Some e, Some sel)
      | None => find_file_input_from rest
      end
  end.

Definition find_file_input : M (option Elem * option string) :=
  find_file_input_from FILE_INPUT_SELECTORS.

(** *** click_upload *)

(** The body of the [try] returns whether the function returns [True]
    there; the click is inside the [try]. *)
Fixpoint click_upload_from (sels : list string) : M bool :=
  match sels with
  | [] => try_except (press "Enter" >> ret true) (ret false)
  | sel :: rest =>
      let* clicked :=
        try_except
          (let* btn := query_selector sel in
           match btn with
           | Some b => click b >> ret true
           | None => ret false
           end)
          (ret false) in
      if clicked then ret true else click_upload_from rest
  end.

Definition click_upload : M bool := click_upload_from UPLOAD_BUTTON_SELECTORS.

(** *** collect_result_links *)

(** The loop over the anchors; an exception of [get_attribute] skips the
    anchor. *)
Fixpoint scan_anchors (anchors : list Elem) (found : gset string)
  : M (gset string) :=
  match anchors with
  | [] => ret found
  | a :: rest =>
      let* found1 :=
        try_except
          (let* href := get_attribute a "href" in
           match href with
           | Some h =>
               if truthy_str h
                  && (str_contains "postimages.org" h || str_contains "postimg.cc" h)
               then ret ({[h]} ∪ found)
               else ret found
           | None => ret found
           end)
          (ret found) in
      scan_anchors rest found1
  end.

(** The end of a round when no album link was returned: with links in
    hand, wait once more and return them; otherwise go on polling. *)
Definition settle (found : gset string) : M round :=
  if bool_decide (found ≠ ∅)
  then wait_for_timeout 2000 >> ret (Return (elements found))
  else ret (Continue found).

(** The body of the [while] loop, up to the wait that ends a round
    without links. *)
Definition poll_round (found : gset string) : M round :=
  let* anchors := query_selector_all RESULT_ANCHORS_SELECTOR in
  let* found1 := scan_anchors anchors found in
  let* album_anchor := query_selector ALBUM_ANCHOR_SELECTOR in
  match album_anchor with
  | Some a =>
      let* href := get_attribute a "href" in
      match href with
      | Some h =>
          if truthy_str h
          then ret (Return (elements ({[h]} ∪ found1)))
          else settle found1
      | None => settle found1
      end
  | None => settle found1
  end.

(** The [while elapsed < timeout_ms] loop, with [step = 2000]. *)
Equations collect_loop (timeout_ms elapsed : Z) (found : gset string) (t : trace)
  : Res (list string) * trace by wf (Z.to_nat (timeout_ms - elapsed)) lt :=
collect_loop timeout_ms elapsed found t with decide (elapsed < timeout_ms) := {
  | right _ => (Ok (elements found), t)
  | left _ with poll_round found t := {
    | (Raise e, t1) => (Raise e, t1)
    | (Ok (Return links), t1) => (Ok links, t1)
    | (Ok (Continue found1), t1) with wait_for_timeout 2000 t1 := {
      | (Raise e, t2) => (Raise e, t2)
      | (Ok _, t2) => collect_loop timeout_ms (elapsed + 2000) found1 t2 } } }.
Next Obligation. lia. Qed.

Definition collect_result_links (timeout_ms : Z) : M (list string) :=
  collect_loop timeout_ms 0 ∅.

(** *** upload_files *)

(** The loop over [ALBUM_INPUT_SELECTORS]: the first field found is
    filled and ends the loop; an exception of the query or of the fill
    passes on to the next selector. *)
Fixpoint fill_album_title_from (sels : list string) (album_title : string)
  : M unit :=
  match sels with
  | [] => ret tt
  | sel :: rest =>
      let* filled :=
        try_except
          (let* el := query_selector sel in
           match el with
           | Some e => fill e album_title >> ret true
           | None => ret false
           end)
          (ret false) in
      if filled then ret tt else fill_album_title_from rest album_title
  end.

(** [if album_title and cond: for sel in ALBUM_INPUT_SELECTORS: ...]. *)
Definition fill_album_title (album_title : option string) (cond : bool) : M unit :=
  match album_title with
  | Some title =>
      when (truthy_str title && cond)
        (fill_album_title_from ALBUM_INPUT_SELECTORS title)
  | None => ret tt
  end.

(** The sequential branch: [for i, f in enumerate(avif_files, start=1)]. *)
Fixpoint upload_each (file_input : Elem) (album_title : option string)
    (total i : Z) (files results : list string) : M (list string) :=
  match files with
  | [] => ret results
  | f :: rest =>
      print ("Uploading " +:+ str_int i +:+ "/" +:+ str_int total +:+ ": " +:+ f) >>
      set_input_files file_input [f] >>
      fill_album_title album_title (i =? 1) >>
      let* _ := click_upload in
      let* links := collect_result_links 60000 in
      let results1 := if truthy_list links then results ++ links else results in
      goto HOME_URL >>
      upload_each file_input album_title total (i + 1) rest results1
  end.

Definition upload_files (avif_files : list string) (album_title : option string)
    (headful : bool) : M (list string) :=
  emit (EvUploadFiles avif_files album_title headful) >>
  async_playwright
    (launch (negb headful) >>
     new_page >>
     goto HOME_URL >>
     let* found := find_file_input in
     let '(file_input, used_sel) := found in
     match file_input with
     | None =>
         print "ERROR: file input not found on postimages.org. Update selectors." >>
         close >>
         ret []
     | Some input =>
         let* supports_multiple := evaluate input "el => !!el.multiple" in
         when (negb supports_multiple)
           (print "File input does NOT support multiple files. Script will upload files sequentially.") >>
         let* results :=
           if supports_multiple then
             print ("Uploading " +:+ str_int (len avif_files)
                    +:+ " files in one request via selector " +:+ str_opt used_sel
                    +:+ " ...") >>
             set_input_files input avif_files >>
             fill_album_title album_title true >>
             let* clicked := click_upload in
             when (negb clicked)
               (print "Warning: upload button not found/clicked; upload may still proceed automatically.") >>
             let* links := collect_result_links 120000 in
             ret ([] ++ links)
           else
             upload_each input album_title (len avif_files) 1 avif_files [] in
         close >>
         ret (dedupe results)
     end).

(** *** collect_avif_files *)

(** [base.exists()]. *)
Definition path_exists (base : PurePath) : Res bool :=
  match fs_lookup E base with
  | Some _ => Ok true
  | None =>
      match stat_error E base with
      | Some e => Raise e
      | None => Ok false
      end
  end.

(** [base.rglob] with the pattern star-dot-avif; below a path that
    leads nowhere there is nothing to yield. *)
Definition rglob_avif (base : PurePath) : list PurePath :=
  match fs_lookup E base with
  | Some n => map (joinpath base) (rglob_star ".avif" n)
  | None => []
  end.

Definition collect_avif_files (base_dir : string) : Res (list string) :=
  let base := Path E base_dir in
  match path_exists base with
  | Raise e => Raise e
  | Ok false => Raise (SystemExit ("Directory not found: " +:+ base_dir))
  | Ok true =>
      let files := map str_path (rglob_avif base) in
      Ok (sorted files)
  end.

(** *** open_in_host_browser *)

Definition open_in_host_browser (url : string) : M unit :=
  let browser_cmd := environ_get E "BROWSER" in
  if negb (truthy_opt_str browser_cmd) then
    print "Set $BROWSER to a command like xdg-open to auto-open the link."
  else
    emit (EvSystem (str_opt browser_cmd +:+ " " +:+ dq +:+ url +:+ dq)).

(** *** main *)

Fixpoint print_links (links : list string) : M unit :=
  match links with
  | [] => ret tt
  | l :: rest => print (" - " +:+ l) >> print_links rest
  end.

(** [if args.open and links: open_in_host_browser(links[0])]. *)
Definition open_first (args : Args) (links : list string) : M unit :=
  match links with
  | l0 :: _ => when (open args) (open_in_host_browser l0)
  | [] => ret tt
  end.

(** The fallback loop, over the indices that [range] yields. *)
Fixpoint fallback_from (args : Args) (files : list string) (idxs : list Z)
    (all_links : list string) : M (list string) :=
  match idxs with
  | [] => ret all_links
  | i :: rest =>
      let batch := slice files (Some i) (Some (i + batch_size args)) in
      print ("Uploading batch " +:+ str_int (i / batch_size args + 1) +:+ " ("
             +:+ str_int (len batch) +:+ " files)...") >>
      let* links :=
        upload_files batch (if i =? 0 then album args else None) (headful args) in
      let all_links1 := all_links ++ links in
      open_first args links >>
      fallback_from args files rest all_links1
  end.

(** [main], from where [ap.parse_args()] has returned [args]. *)
Definition main (args : Args) : M unit :=
  let* files := lift (collect_avif_files (dir args)) in
  if negb (truthy_list files) then
    print ("No .avif files found under " +:+ dir args)
  else
    print ("Found " +:+ str_int (len files) +:+ " .avif files.") >>
    let batch := slice files None (Some (batch_size args)) in
    let* links := upload_files batch (album args) (headful args) in
    if truthy_list links then
      print "Upload produced the following link(s):" >>
      print_links links >>
      open_first args links
    else
      print "No album link found for single upload; falling back to batch uploads..." >>
      let* idxs := lift (range 0 (len files) (batch_size args)) in
      let* all_links := fallback_from args files idxs [] in
      if truthy_list all_links then
        print "Collected links:" >>
        print_links all_links
      else
        print "No links produced. Run with --headful to watch and debug the upload process.".

End Script.

(** ** Vocabulary of the specification *)

(** The upload attempts recorded in a trace, in order: the arguments of
    every call of [upload_files]. *)
Definition attempt_of (ev : Event) : option (list string * option string * bool) :=
  match ev with
  | EvUploadFiles files title headful => Some (files, title, headful)
  | _ => None
  end.

Definition upload_attempts (t : trace) : list (list string * option string * bool) :=
  omap attempt_of t.

(** The commands handed to [os.system], in order. *)
Definition system_of (ev : Event) : option string :=
  match ev with
  | EvSystem command => Some command
  | _ => None
  end.

Definition system_calls (t : trace) : list string := omap system_of t.

Definition is_query (ev : Event) : Prop :=
  match ev with
  | EvQuerySelector _ => True
  | _ => False
  end.

(** What a page lookup records: queries and attribute reads. *)
Definition is_lookup (ev : Event) : Prop :=
  match ev with
  | EvQuerySelector _ | EvQuerySelectorAll _ | EvGetAttribute _ _ => True
  | _ => False
  end.

(** Position [a] is where [x] first occurs in [l]. *)
Definition first_occurrence (l : list string) (x : string) (a : nat) : Prop :=
  l !! a = Some x /\ forall k : nat, (k < a)%nat -> l !! k <> Some x.

(** [deduped] is the duplicate-free list of the links [seen] so far, in
    the order of their first occurrences. *)
Record dedupe_inv (seen deduped : list string) : Prop := {
  inv_nodup : NoDup deduped;
  inv_elems : forall u, u ∈ deduped <-> u ∈ seen;
  inv_order : forall (i j : nat) x y,
    deduped !! i = Some x -> deduped !! j = Some y -> (i < j)%nat ->
    exists a b, first_occurrence seen x a /\ first_occurrence seen y b /\ (a < b)%nat
}.

(** One turn of the deduplication loop. *)
Definition dedupe_step (deduped : list string) (l : string) : list string :=
  if decide (l ∈ deduped) then deduped else deduped ++ [l].

(** The batch the fallback loop cuts at index [i]. *)
Definition batch_of (files : list string) (bs i : Z) : list string :=
  slice files (Some i) (Some (i + bs)).

(** The number of rounds the polling loop runs when no round finds a link:
    the least [n] with [timeout_ms <= 2000 * n]. *)
Definition poll_rounds (timeout_ms : Z) : nat := Z.to_nat ((timeout_ms + 1999) / 2000).

(** [idle_rounds E n t t']: from trace [t], [n] rounds in a row find no
    link, each followed by its wait of 2000 ms, and lead to trace [t']. *)
Inductive idle_rounds (E : Env) : nat -> trace -> trace -> Prop :=
| idle_done (t : trace) : idle_rounds E 0 t t
| idle_more (n : nat) (t t1 t2 t3 : trace) (found : gset string) :
    poll_round E ∅ t = (Ok (Continue found), t1) ->
    wait_for_timeout E 2000 t1 = (Ok tt, t2) ->
    idle_rounds E n t2 t3 ->
    idle_rounds E (S n) t t3.


(** ** Sample environments *)

#[global] Instance Event_eq_dec : EqDecision Event.
Proof. solve_decision. Defined.

Definition sample_tree : node :=
  Dir [ ("b.avif", File);
        ("sub", Dir [ ("a.avif", File); ("notes.txt", File) ]);
        ("c.avif", File) ].

(** A machine whose folder [imgs] holds [sample_tree], with [$BROWSER]
    set to [browser], and a browser whose calls all succeed; the page is
    given by its three lookups and by whether its file input takes
    several files. *)
Definition sample_env (browser : option string)
    (query : trace -> string -> Res (option Elem))
    (query_all : trace -> string -> Res (list Elem))
    (attribute : trace -> Elem -> string -> Res (option string))
    (multiple : bool) : Env :=
  {| Path := fun s => {| anchor := EmptyString; parts := [s] |};
     fs_lookup := fun p =>
       if decide (anchor p = EmptyString /\ parts p = ["imgs"])
       then Some sample_tree else None;
     stat_error := fun _ => None;
     environ_get := fun name => if decide (name = "BROWSER") then browser else None;
     playwright_start := fun _ => Ok tt;
     playwright_stop := fun _ => Ok tt;
     chromium_launch := fun _ _ => Ok tt;
     browser_new_page := fun _ => Ok tt;
     browser_close := fun _ => Ok tt;
     page_goto := fun _ _ => Ok tt;
     page_query_selector := query;
     page_query_selector_all := query_all;
     page_wait_for_timeout := fun _ _ => Ok tt;
     keyboard_press := fun _ _ => Ok tt;
     el_get_attribute := attribute;
     el_evaluate := fun _ _ _ => Ok multiple;
     el_set_input_files := fun _ _ _ => Ok tt;
     el_fill := fun _ _ _ => Ok tt;
     el_click := fun _ _ => Ok tt |}.

(** A page on which nothing matches any selector. *)
Definition blank_env : Env :=
  sample_env None (fun _ _ => Ok None) (fun _ _ => Ok []) (fun _ _ _ => Ok None) true.

(** A page with a multi-file input (element 0) that shows two anchors
    to the same image link as soon as it is polled. *)
Definition first_file_selector : string := hd EmptyString FILE_INPUT_SELECTORS.

Definition linked_env (browser : option string) : Env :=
  sample_env browser
    (fun _ sel => if decide (sel = first_file_selector) then Ok (Some 0%nat) else Ok None)
    (fun _ _ => Ok [1%nat; 2%nat])
    (fun _ _ _ => Ok (Some "https://postimg.cc/abc"))
    true.

(** A page that shows its link only once the script has waited. *)
Definition slow_env : Env :=
  sample_env None
    (fun _ _ => Ok None)
    (fun t _ => if decide (EvWaitForTimeout 2000 ∈ t) then Ok [1%nat] else Ok [])
    (fun _ _ _ => Ok (Some "https://postimg.cc/late"))
    true.

(** A page whose anchor query fails, as when the page is closed or
    navigates away while it is polled. *)
Definition closed_page_error : exn := PyException "Error" "Target page has been closed".

Definition broken_env : Env :=
  sample_env None
    (fun _ sel => if decide (sel = first_file_selector) then Ok (Some 0%nat) else Ok None)
    (fun _ _ => Raise closed_page_error)
    (fun _ _ _ => Ok None)
    true.

Definition sample_args (d : string) (title : option string) (o : bool) (bs : Z) : Args :=
  {| dir := d; album := title; headful := false; open := o; batch_size := bs |}.

(** ** Reasoning about computations *)

(** Every event the computation adds to the trace satisfies [P]. *)
Definition emits {A} (P : Event -> Prop) (m : M A) : Prop :=
  forall t r t', m t = (r, t') -> exists evs, t' = t ++ evs /\ Forall P evs.

(** The computation never ends in an exception that [except Exception]
    would have caught. *)
Definition swallows {A} (m : M A) : Prop :=
  forall t e t', m t = (Raise e, t') -> is_Exception e = false.

(** An event other than the entry into [upload_files]. *)
Definition no_attempt (ev : Event) : Prop := attempt_of ev = None.

(** The attempts the fallback loop is to make over the indices [idxs]. *)
Definition planned_attempts (args : Args) (files : list string) (idxs : list Z)
  : list (list string * option string * bool) :=
  map (fun i => (batch_of files (batch_size args) i,
                 if i =? 0 then album args else None,
                 headful args)) idxs.

(** The line [main] prints once it has found files. *)
Definition found_line (files : list string) : string :=
  "Found " +:+ str_int (len files) +:+ " .avif files.".

(** The files of an attempt, and its album title. *)
Definition attempt_files (a : list string * option string * bool) : list string := a.1.1.
Definition attempt_album (a : list string * option string * bool) : option string := a.1.2.

(** The events with which [upload_files] puts files or input into the
    page. *)
Definition is_upload_action (ev : Event) : Prop :=
  match ev with
  | EvSetInputFiles _ _ | EvFill _ _ | EvClick _ | EvPress _ => True
  | _ => False
  end.

(** How an attempt begins when the browser starts and the page loads. *)
Definition session_start (avif_files : list string) (album_title : option string)
    (headful : bool) : list Event :=
  [ EvUploadFiles avif_files album_title headful; EvPlaywrightStart;
    EvLaunch (negb headful); EvNewPage; EvGoto HOME_URL ].

Definition MISSING_INPUT_LINE : string :=
  "ERROR: file input not found on postimages.org. Update selectors.".

Definition BROWSER_HINT_LINE : string :=
  "Set $BROWSER to a command like xdg-open to auto-open the link.".

(** The command line [open_in_host_browser] hands to [os.system]. *)
Definition open_command (browser_cmd url : string) : string :=
  browser_cmd +:+ " " +:+ dq +:+ url +:+ dq.

(** The line the fallback loop prints before the batch at index [i]. *)
Definition batch_line (args : Args) (files : list string) (i : Z) : string :=
  "Uploading batch " +:+ str_int (i / batch_size args + 1) +:+ " ("
  +:+ str_int (len (slice files (Some i) (Some (i + batch_size args))))
  +:+ " files)...".

(** The wait that ends a round of polling without links. *)
Definition is_poll_wait (ev : Event) : Prop := ev = EvWaitForTimeout 2000.

#[global] Instance is_poll_wait_dec (ev : Event) : Decision (is_poll_wait ev).
Proof. unfold is_poll_wait. apply _. Defined.

(** ** Further vocabulary *)

Definition FALLBACK_LINE : string :=
  "No album link found for single upload; falling back to batch uploads...".

Definition NO_LINKS_LINE : string :=
  "No links produced. Run with --headful to watch and debug the upload process.".

Definition ZERO_STEP_ERROR : exn :=
  PyException "ValueError" "range() arg 3 must not be zero".

(** The files handed to the file input, call by call. *)
Definition set_input_of (ev : Event) : option (list string) :=
  match ev with
  | EvSetInputFiles _ files => Some files
  | _ => None
  end.

Definition input_files_set (t : trace) : list (list string) := omap set_input_of t.

(** An event that hands no files to the file input. *)
Definition no_set_input (ev : Event) : Prop := set_input_of ev = None.

(** A query of a selector that brings no element: the page has none, or
    the query raised what [except Exception] catches. *)
Definition missed (E : Env) (t : trace) (sel : string) : Prop :=
  page_query_selector E t sel = Ok None
  \/ exists e, page_query_selector E t sel = Raise e /\ is_Exception e = true.

(** A link as the anchor loop of [collect_result_links] accepts it. *)
Definition link_shaped (href : string) : bool :=
  truthy_str href
  && (str_contains "postimages.org" href || str_contains "postimg.cc" href).

(** A page whose every selector query fails. *)
Definition raising_env : Env :=
  sample_env None (fun _ _ => Raise closed_page_error) (fun _ _ => Ok [])
    (fun _ _ _ => Ok None) true.

(** A page whose file input (element 0) takes one file at a time. *)
Definition single_file_env : Env :=
  sample_env None
    (fun _ sel => if decide (sel = first_file_selector) then Ok (Some 0%nat) else Ok None)
    (fun _ _ => Ok [1%nat])
    (fun _ _ _ => Ok (Some "https://postimg.cc/abc"))
    false.


(** The events with which the page is probed, clicked or waited on. *)
Definition is_probe (ev : Event) : Prop :=
  match ev with
  | EvQuerySelector _ | EvQuerySelectorAll _ | EvGetAttribute _ _
  | EvFill _ _ | EvClick _ | EvPress _ | EvWaitForTimeout _ => True
  | _ => False
  end.

(** A machine on which the name handed to --dir is too long to exist:
    [os.stat] fails with an error that [Path.exists] does not ignore. *)
Definition NAME_TOO_LONG : exn := PyException "OSError" "[Errno 36] File name too long".

Definition long_name_env : Env :=
  {| Path := fun s => {| anchor := EmptyString; parts := [s] |};
     fs_lookup := fun _ => None;
     stat_error := fun _ => Some NAME_TOO_LONG;
     environ_get := fun _ => None;
     playwright_start := fun _ => Ok tt;
     playwright_stop := fun _ => Ok tt;
     chromium_launch := fun _ _ => Ok tt;
     browser_new_page := fun _ => Ok tt;
     browser_close := fun _ => Ok tt;
     page_goto := fun _ _ => Ok tt;
     page_query_selector := fun _ _ => Ok None;
     page_query_selector_all := fun _ _ => Ok [];
     page_wait_for_timeout := fun _ _ => Ok tt;
     keyboard_press := fun _ _ => Ok tt;
     el_get_attribute := fun _ _ _ => Ok None;
     el_evaluate := fun _ _ _ => Ok true;
     el_set_input_files := fun _ _ _ => Ok tt;
     el_fill := fun _ _ _ => Ok tt;
     el_click := fun _ _ => Ok tt |}.



Definition SEQUENTIAL_LINE : string :=
  "File input does NOT support multiple files. Script will upload files sequentially.".

(** The part of [upload_files] that collects the links into [results],
    once the file input is known: the single request when the input takes
    several files, the loop over the files otherwise. *)
Definition collecting (E : Env) (avif_files : list string)
    (album_title : option string) (input : Elem) (used_sel : option string)
    (supports_multiple : bool) : M (list string) :=
  if supports_multiple then
    print ("Uploading " +:+ str_int (len avif_files)
           +:+ " files in one request via selector " +:+ str_opt used_sel
           +:+ " ...") >>
    set_input_files E input avif_files >>
    fill_album_title E album_title true >>
    let* clicked := click_upload E in
    when (negb clicked)
      (print "Warning: upload button not found/clicked; upload may still proceed automatically.") >>
    let* links := collect_result_links E 120000 in
    ret ([] ++ links)
  else
    upload_each E input album_title (len avif_files) 1 avif_files [].

(** ** The monad *)

Lemma bind_unfold {A B} (m : M A) (k : A -> M B) (t : trace) :
  bind m k t
  = match m t with
    | (Ok a, t1) => k a t1
    | (Raise e, t1) => (Raise e, t1)
    end.
Proof. reflexivity. Qed.

Lemma bind_Ok {A B} (m : M A) (k : A -> M B) (t t1 : trace) (a : A) :
  m t = (Ok a, t1) -> bind m k t = k a t1.
Proof. intros H. unfold bind. rewrite H. reflexivity. Qed.

Lemma bind_Raise {A B} (m : M A) (k : A -> M B) (t t1 : trace) (e : exn) :
  m t = (Raise e, t1) -> bind m k t = (Raise e, t1).
Proof. intros H. unfold bind. rewrite H. reflexivity. Qed.

Lemma bind_inv {A B} (m : M A) (k : A -> M B) (t t' : trace) (r : Res B) :
  bind m k t = (r, t') ->
  (exists a t1, m t = (Ok a, t1) /\ k a t1 = (r, t'))
  \/ (exists e, m t = (Raise e, t') /\ r = Raise e).
Proof.
  unfold bind. destruct (m t) as [[a|e] t1]; intros H.
  - left. eauto.
  - right. inversion H; subst. eauto.
Qed.

Lemma bind_Ok_inv {A B} (m : M A) (k : A -> M B) (t t' : trace) (b : B) :
  bind m k t = (Ok b, t') ->
  exists a t1, m t = (Ok a, t1) /\ k a t1 = (Ok b, t').
Proof.
  intros H. apply bind_inv in H as [H|(e & _ & He)]; [exact H|discriminate].
Qed.

Lemma with_exit_Ok_inv {A} (body : M A) (exit : M unit) (t t' : trace) (a : A) :
  with_exit body exit t = (Ok a, t') ->
  exists t1, body t = (Ok a, t1) /\ exit t1 = (Ok tt, t').
Proof.
  unfold with_exit. destruct (body t) as [r t1].
  destruct (exit t1) as [[[]|e] t2] eqn:Hexit; intros H; inversion H; subst.
  eauto.
Qed.

(** *** What a computation adds to the trace *)

Section Emits.

Context (P : Event -> Prop).

Lemma emits_ret {A} (a : A) : emits P (ret a).
Proof.
  intros t r t' H. inversion H; subst. exists []. rewrite app_nil_r. auto.
Qed.

Lemma emits_lift {A} (r0 : Res A) : emits P (lift r0).
Proof.
  intros t r t' H. inversion H; subst. exists []. rewrite app_nil_r. auto.
Qed.

Lemma emits_perform {A} (ev : Event) (answer : trace -> Res A) :
  P ev -> emits P (perform ev answer).
Proof. intros Hev t r t' H. inversion H; subst. exists [ev]. auto. Qed.

Lemma emits_emit (ev : Event) : P ev -> emits P (emit ev).
Proof. intros Hev t r t' H. inversion H; subst. exists [ev]. auto. Qed.

Lemma emits_bind {A B} (m : M A) (k : A -> M B) :
  emits P m -> (forall a, emits P (k a)) -> emits P (bind m k).
Proof.
  intros Hm Hk t r t' H. apply bind_inv in H as [(a & t1 & H1 & H2)|(e & H1 & _)].
  - destruct (Hm _ _ _ H1) as (evs1 & -> & HP1).
    destruct (Hk a _ _ _ H2) as (evs2 & -> & HP2).
    exists (evs1 ++ evs2). rewrite app_assoc. split; [reflexivity|].
    apply Forall_app; auto.
  - exact (Hm _ _ _ H1).
Qed.

Lemma emits_try_except {A} (body handler : M A) :
  emits P body -> emits P handler -> emits P (try_except body handler).
Proof.
  intros Hb Hh t r t'. unfold try_except.
  destruct (body t) as [[a|e] t1] eqn:Hbody; intros H.
  - inversion H; subst. exact (Hb _ _ _ Hbody).
  - destruct (Hb _ _ _ Hbody) as (evs1 & -> & HP1).
    destruct (is_Exception e).
    + destruct (Hh _ _ _ H) as (evs2 & -> & HP2).
      exists (evs1 ++ evs2). rewrite app_assoc. split; [reflexivity|].
      apply Forall_app; auto.
    + inversion H; subst. eauto.
Qed.

Lemma emits_with_exit {A} (body : M A) (exit : M unit) :
  emits P body -> emits P exit -> emits P (with_exit body exit).
Proof.
  intros Hb He t r t'. unfold with_exit.
  destruct (body t) as [r1 t1] eqn:Hbody.
  destruct (Hb _ _ _ Hbody) as (evs1 & -> & HP1).
  destruct (exit (t ++ evs1)) as [[[]|e] t2] eqn:Hexit; intros H;
    inversion H; subst;
    destruct (He _ _ _ Hexit) as (evs2 & -> & HP2);
    exists (evs1 ++ evs2); rewrite app_assoc; (split; [reflexivity|]);
    apply Forall_app; auto.
Qed.

Lemma emits_when (b : bool) (m : M unit) : emits P m -> emits P (when b m).
Proof. destruct b; simpl; auto using emits_ret. Qed.

End Emits.

Lemma emits_mono {A} (P Q : Event -> Prop) (m : M A) :
  (forall ev, P ev -> Q ev) -> emits P m -> emits Q m.
Proof.
  intros HPQ Hm t r t' H. destruct (Hm _ _ _ H) as (evs & -> & HP).
  exists evs. split; [reflexivity|]. eapply Forall_impl; eauto.
Qed.

(** Steps through the monadic structure of an [emits] goal. *)
Ltac emits_step :=
  lazymatch goal with
  | |- emits _ (bind _ _) => apply emits_bind; [|intros ?]
  | |- emits _ (ret _) => apply emits_ret
  | |- emits _ (lift _) => apply emits_lift
  | |- emits _ (perform _ _) => apply emits_perform; simpl; auto
  | |- emits _ (emit _) => apply emits_emit; simpl; auto
  | |- emits _ (try_except _ _) => apply emits_try_except
  | |- emits _ (with_exit _ _) => apply emits_with_exit
  | |- emits _ (when _ _) => apply emits_when
  | |- emits _ (match ?x with _ => _ end) => destruct x
  | |- emits _ (if ?x then _ else _) => destruct x
  end.

(** ** Batches: range and slices *)

Lemma range_up_length (i stop step : Z) (H : 0 < step) :
  len (range_up i stop step H) = Z.max 0 ((stop - i + step - 1) / step).
Proof.
  funelim (range_up i stop step H).
  - unfold len in *. rewrite length_cons, Nat2Z.inj_succ, H.
    replace (stop - (i + step) + step - 1) with (stop - i - 1) by lia.
    replace (stop - i + step - 1) with ((stop - i - 1) + 1 * step) by lia.
    rewrite Z.div_add by lia.
    assert (0 <= (stop - i - 1) / step) by (apply Z.div_pos; lia). lia.
  - unfold len. simpl.
    assert ((stop - i + step - 1) / step < 1); [|lia].
    apply Z.div_lt_upper_bound; lia.
Qed.

Lemma range_up_lower_bound (i stop step : Z) (H : 0 < step) :
  Forall (fun x => i <= x) (range_up i stop step H).
Proof.
  funelim (range_up i stop step H).
  - constructor; [lia|]. eapply Forall_impl; [exact H|]. simpl. intros; lia.
  - constructor.
Qed.

Lemma range_down_from_zero (stop step : Z) (H : step < 0) :
  0 <= stop -> range_down 0 stop step H = [].
Proof.
  intros Hstop. simp range_down. destruct (decide (stop < 0)); [lia|reflexivity].
Qed.

Lemma slice_window {A} (l : list A) (i bs : Z) :
  0 <= i -> 0 < bs ->
  slice l (Some i) (Some (i + bs))
  = drop (Z.to_nat i) (take (Z.to_nat (Z.min (i + bs) (len l))) l).
Proof.
  intros Hi Hbs. unfold slice, clamp_index. simpl.
  repeat case_decide; try lia.
  destruct (decide (i <= len l)) as [Hle|Hgt].
  - rewrite Z.min_l by lia. reflexivity.
  - rewrite !drop_ge; [reflexivity| |]; rewrite length_take; unfold len in *; lia.
Qed.

Lemma batch_length_le (files : list string) (bs i : Z) :
  0 <= i -> 0 < bs -> len (batch_of files bs i) <= bs.
Proof.
  intros Hi Hbs. unfold batch_of. rewrite slice_window by lia.
  unfold len. rewrite length_drop, length_take. lia.
Qed.

Lemma concat_batches_from (files : list string) (bs i stop : Z) (H : 0 < bs) :
  stop = len files -> 0 <= i ->
  concat (map (batch_of files bs) (range_up i stop bs H))
  = drop (Z.to_nat i) files.
Proof.
  funelim (range_up i stop bs H); intros Hn Hi; subst stop; simpl.
  - rewrite H by (auto; lia). unfold batch_of. rewrite slice_window by lia.
    destruct (decide (i + step <= len files)).
    + rewrite Z.min_l by lia. apply drop_take_drop. lia.
    + rewrite Z.min_r by lia. unfold len at 1. rewrite Nat2Z.id, firstn_all.
      rewrite (drop_ge _ (Z.to_nat (i + step))) by (unfold len in *; lia).
      apply app_nil_r.
  - rewrite drop_ge; [reflexivity|unfold len in *; lia].
Qed.

Lemma Forall_batches_from (files : list string) (bs i stop : Z) (H : 0 < bs) :
  0 <= i ->
  Forall (fun g => len g <= bs) (map (batch_of files bs) (range_up i stop bs H)).
Proof.
  funelim (range_up i stop bs H); intros Hi; simpl.
  - constructor; [apply batch_length_le; lia|apply H; lia].
  - constructor.
Qed.

(** The groups of the batch loop, for a positive batch size. *)
Lemma batches_partition (files : list string) (bs : Z) :
  0 < bs ->
  exists idxs : list Z,
    range 0 (len files) bs = Ok idxs /\
    len (map (batch_of files bs) idxs) = (len files + bs - 1) / bs /\
    Forall (fun g => len g <= bs) (map (batch_of files bs) idxs) /\
    concat (map (batch_of files bs) idxs) = files.
Proof.
  intros Hbs. unfold range. destruct (decide (0 < bs)) as [Hpos|]; [|lia].
  exists (range_up 0 (len files) bs Hpos). split; [reflexivity|].
  split; [|split].
  - unfold len at 1. rewrite length_map. fold (len (range_up 0 (len files) bs Hpos)).
    rewrite range_up_length. rewrite Z.sub_0_r.
    assert (0 <= (len files + bs - 1) / bs) by (apply Z.div_pos; unfold len; lia). lia.
  - apply Forall_batches_from. lia.
  - rewrite concat_batches_from by (auto; lia). reflexivity.
Qed.

Lemma range_up_turn (i stop step : Z) (H : 0 < step) :
  range_up i stop step H
  = if decide (i < stop) then i :: range_up (i + step) stop step H else [].
Proof.
  funelim (range_up i stop step H);
    match goal with Hd : decide _ = _ |- _ => rewrite Hd end; reflexivity.
Qed.

(** The index of the [j]-th turn of the loop. *)
Lemma range_up_lookup (step : Z) (H : 0 < step) (j : nat) :
  forall (i stop x : Z),
    range_up i stop step H !! j = Some x -> x = i + Z.of_nat j * step.
Proof.
  induction j as [|j IH]; intros i stop x Hj; rewrite range_up_turn in Hj;
    destruct (decide (i < stop)); try (rewrite lookup_nil in Hj; discriminate);
    simpl in Hj.
  - injection Hj as <-. lia.
  - apply IH in Hj. lia.
Qed.

(** The batch cut at the index of the [j]-th turn: the next [bs] files,
    or what is left of them. *)
Lemma batch_of_turn (files : list string) (bs : Z) (j : nat) :
  0 < bs ->
  batch_of files bs (Z.of_nat j * bs)
  = take (Z.to_nat bs) (drop (j * Z.to_nat bs) files).
Proof.
  intros Hbs. unfold batch_of. rewrite slice_window by lia.
  replace (Z.to_nat (Z.of_nat j * bs)) with (j * Z.to_nat bs)%nat by lia.
  destruct (decide (Z.of_nat j * bs + bs <= len files)).
  - rewrite Z.min_l by lia. rewrite take_drop_commute. f_equal. f_equal. lia.
  - rewrite Z.min_r by lia. unfold len at 1. rewrite Nat2Z.id, firstn_all.
    rewrite take_ge; [reflexivity|]. rewrite length_drop. unfold len in *. lia.
Qed.

Lemma batches_shape (files : list string) (bs : Z) (idxs : list Z) (j : nat)
    (g : list string) :
  0 < bs ->
  range 0 (len files) bs = Ok idxs ->
  map (batch_of files bs) idxs !! j = Some g ->
  g = take (Z.to_nat bs) (drop (j * Z.to_nat bs) files).
Proof.
  intros Hbs Hr Hj. unfold range in Hr.
  destruct (decide (0 < bs)) as [Hpos|]; [|lia]. injection Hr as <-.
  rewrite list_lookup_fmap in Hj.
  destruct (range_up 0 (len files) bs Hpos !! j) as [i|] eqn:Hi; [|discriminate].
  injection Hj as <-. apply range_up_lookup in Hi. subst i.
  rewrite Z.add_0_l. apply batch_of_turn. exact Hbs.
Qed.


(** ** Deduplication *)

Lemma first_occurrence_app_l (p q : list string) x a :
  first_occurrence p x a -> first_occurrence (p ++ q) x a.
Proof.
  intros [Hx Hmin]. pose proof (lookup_lt_Some _ _ _ Hx) as Hlt. split.
  - rewrite lookup_app_l; assumption.
  - intros k Hk. rewrite lookup_app_l by lia. auto.
Qed.

Lemma first_occurrence_fresh (p : list string) z :
  z ∉ p -> first_occurrence (p ++ [z]) z (length p).
Proof.
  intros Hz. split.
  - rewrite lookup_app_r by lia. rewrite Nat.sub_diag. reflexivity.
  - intros k Hk Hlook. rewrite lookup_app_l in Hlook by lia.
    apply Hz. eapply list_elem_of_lookup_2. eassumption.
Qed.

Lemma first_occurrence_lt_length (p : list string) x a :
  first_occurrence p x a -> (a < length p)%nat.
Proof. intros [Hx _]. eapply lookup_lt_Some. eassumption. Qed.

Lemma dedupe_inv_step (seen deduped : list string) (z : string) :
  dedupe_inv seen deduped -> dedupe_inv (seen ++ [z]) (dedupe_step deduped z).
Proof.
  intros [Hnd Hel Hord]. unfold dedupe_step. destruct (decide (z ∈ deduped)) as [Hin|Hout].
  - split.
    + assumption.
    + intros u. rewrite elem_of_app, list_elem_of_singleton, <- Hel.
      split; [auto|]. intros [?| ->]; assumption.
    + intros i j x y Hi Hj Hlt.
      destruct (Hord i j x y Hi Hj Hlt) as (a & b & Ha & Hb & Hab).
      exists a, b. auto using first_occurrence_app_l.
  - assert (Hz : z ∉ seen) by (rewrite <- Hel; assumption). split.
    + apply NoDup_app. repeat split; [assumption| |apply NoDup_singleton].
      intros u Hu Hu'. apply list_elem_of_singleton in Hu'. subst. contradiction.
    + intros u. rewrite !elem_of_app, Hel. reflexivity.
    + intros i j x y Hi Hj Hlt.
      destruct (decide (j < length deduped)%nat) as [Hj'|Hj'].
      * rewrite lookup_app_l in Hi, Hj by lia.
        destruct (Hord i j x y Hi Hj Hlt) as (a & b & Ha & Hb & Hab).
        exists a, b. auto using first_occurrence_app_l.
      * pose proof (lookup_lt_Some _ _ _ Hj) as Hjl.
        rewrite length_app in Hjl. simpl in Hjl.
        assert (j = length deduped) by lia. subst j.
        rewrite lookup_app_r in Hj by lia. rewrite Nat.sub_diag in Hj.
        injection Hj as <-.
        rewrite lookup_app_l in Hi by lia.
        assert (Hx : x ∈ seen).
        { apply Hel. eapply list_elem_of_lookup_2. eassumption. }
        assert (exists a, first_occurrence seen x a) as [a Ha].
        { clear -Hx. induction seen as [|h s IH]; [inversion Hx|].
          destruct (decide (h = x)) as [->|Hne].
          - exists 0%nat. split; [reflexivity|]. intros k Hk. lia.
          - apply elem_of_cons in Hx as [->|Hx]; [contradiction|].
            destruct (IH Hx) as [a [Ha Hmin]]. exists (S a). split; [exact Ha|].
            intros [|k] Hk; simpl; [congruence|]. apply Hmin. lia. }
        exists a, (length seen).
        split; [apply first_occurrence_app_l; assumption|].
        split; [apply first_occurrence_fresh; assumption|].
        eapply first_occurrence_lt_length. eassumption.
Qed.

Lemma dedupe_inv_fold (l seen deduped : list string) :
  dedupe_inv seen deduped ->
  dedupe_inv (seen ++ l) (fold_left dedupe_step l deduped).
Proof.
  revert seen deduped. induction l as [|z l IH]; intros seen deduped Hinv; simpl.
  - rewrite app_nil_r. assumption.
  - replace (seen ++ z :: l) with ((seen ++ [z]) ++ l) by (rewrite <- app_assoc; reflexivity).
    apply IH, dedupe_inv_step, Hinv.
Qed.

Lemma dedupe_inv_nil : dedupe_inv [] [].
Proof.
  split.
  - constructor.
  - reflexivity.
  - intros i j x y Hi. rewrite lookup_nil in Hi. discriminate.
Qed.

Lemma dedupe_spec (results : list string) : dedupe_inv results (dedupe results).
Proof. apply (dedupe_inv_fold results [] []), dedupe_inv_nil. Qed.

(** ** What the functions of the script add to the trace *)

Section Functions.

Context (E : Env).

Lemma find_file_input_from_queries (sels : list string) :
  emits is_query (find_file_input_from E sels).
Proof.
  induction sels as [|sel rest IH]; simpl; repeat emits_step.
  unfold query_selector. emits_step.
  all: try exact IH.
Qed.

Lemma find_file_input_queries : emits is_query (find_file_input E).
Proof. apply find_file_input_from_queries. Qed.

Lemma click_upload_from_no_attempt (sels : list string) :
  emits no_attempt (click_upload_from E sels).
Proof.
  induction sels as [|sel rest IH]; simpl.
  - unfold press. repeat emits_step; reflexivity.
  - unfold query_selector, click.
    repeat emits_step; try reflexivity; exact IH.
Qed.

Lemma fill_album_title_no_attempt (album_title : option string) (cond : bool) :
  emits no_attempt (fill_album_title E album_title cond).
Proof.
  unfold fill_album_title. destruct album_title as [title|]; [|apply emits_ret].
  apply emits_when. induction ALBUM_INPUT_SELECTORS as [|sel rest IH]; simpl.
  - apply emits_ret.
  - unfold query_selector, fill. repeat emits_step; try reflexivity; exact IH.
Qed.

Lemma scan_anchors_lookups (anchors : list Elem) (found : gset string) :
  emits is_lookup (scan_anchors E anchors found).
Proof.
  revert found. induction anchors as [|a rest IH]; intros found; simpl.
  - apply emits_ret.
  - unfold get_attribute. repeat emits_step; apply IH.
Qed.

Lemma settle_no_attempt (found : gset string) : emits no_attempt (settle E found).
Proof.
  unfold settle, wait_for_timeout. repeat emits_step; reflexivity.
Qed.

Lemma poll_round_no_attempt (found : gset string) :
  emits no_attempt (poll_round E found).
Proof.
  unfold poll_round, query_selector_all, query_selector, get_attribute.
  emits_step; [emits_step; reflexivity|].
  emits_step.
  { eapply emits_mono; [|apply scan_anchors_lookups].
    intros [] Hev; try contradiction; reflexivity. }
  repeat emits_step; try reflexivity; apply settle_no_attempt.
Qed.

Lemma wait_for_timeout_no_attempt (ms : Z) :
  emits no_attempt (wait_for_timeout E ms).
Proof. unfold wait_for_timeout. emits_step. reflexivity. Qed.

Lemma collect_loop_no_attempt (timeout_ms elapsed : Z) (found : gset string) :
  emits no_attempt (collect_loop E timeout_ms elapsed found).
Proof.
  intros t. funelim (collect_loop E timeout_ms elapsed found t); intros r t' Hrun;
    repeat match goal with
    | Hp : poll_round E _ _ = _ |- _ =>
        apply poll_round_no_attempt in Hp as (? & -> & ?)
    | Hw : wait_for_timeout E _ _ = _ |- _ =>
        apply wait_for_timeout_no_attempt in Hw as (? & -> & ?)
    | IH : forall r t', collect_loop _ _ _ _ _ = _ -> _ |- _ =>
        apply IH in Hrun as (? & -> & ?); clear IH
    end;
    try (inversion Hrun; subst; clear Hrun).
  all: try (exists []; rewrite app_nil_r; split; [reflexivity|constructor]).
  all: rewrite <- ?app_assoc; eexists; split; [reflexivity|];
    repeat apply Forall_app_2; auto; repeat constructor.
Qed.

Lemma collect_result_links_no_attempt (timeout_ms : Z) :
  emits no_attempt (collect_result_links E timeout_ms).
Proof. apply collect_loop_no_attempt. Qed.

Lemma click_upload_no_attempt : emits no_attempt (click_upload E).
Proof. apply click_upload_from_no_attempt. Qed.

Lemma find_file_input_no_attempt : emits no_attempt (find_file_input E).
Proof.
  eapply emits_mono; [|apply find_file_input_queries].
  intros [] Hev; try contradiction; reflexivity.
Qed.

Lemma upload_each_no_attempt (file_input : Elem) (album_title : option string)
    (total i : Z) (files results : list string) :
  emits no_attempt (upload_each E file_input album_title total i files results).
Proof.
  revert i results. induction files as [|f rest IH]; intros i results; simpl.
  - apply emits_ret.
  - unfold print, set_input_files, goto.
    repeat (first [ apply fill_album_title_no_attempt
                  | apply click_upload_no_attempt
                  | apply collect_result_links_no_attempt
                  | apply IH
                  | emits_step; try reflexivity ]).
Qed.

(** The page session of [upload_files], after the entry marker. *)
Lemma upload_files_session (avif_files : list string) (album_title : option string)
    (headful : bool) (t : trace) (r : Res (list string)) (t' : trace) :
  upload_files E avif_files album_title headful t = (r, t') ->
  exists evs,
    t' = t ++ EvUploadFiles avif_files album_title headful :: evs
    /\ Forall no_attempt evs.
Proof.
  unfold upload_files. rewrite bind_unfold. unfold emit at 1.
  intros Hrun.
  match type of Hrun with ?m ?t0 = _ =>
    assert (Hem : emits no_attempt m)
  end.
  { unfold async_playwright, launch, new_page, goto, close, evaluate, print,
      set_input_files.
    repeat (first [ apply fill_album_title_no_attempt
                  | apply click_upload_no_attempt
                  | apply collect_result_links_no_attempt
                  | apply find_file_input_no_attempt
                  | apply upload_each_no_attempt
                  | emits_step; try reflexivity ]). }
  destruct (Hem _ _ _ Hrun) as (evs & -> & Hevs).
  exists evs. rewrite <- app_assoc. auto.
Qed.

Lemma upload_attempts_app (t1 t2 : trace) :
  upload_attempts (t1 ++ t2) = upload_attempts t1 ++ upload_attempts t2.
Proof. apply omap_app. Qed.

Lemma upload_attempts_none (evs : trace) :
  Forall no_attempt evs -> upload_attempts evs = [].
Proof.
  induction 1 as [|ev evs Hev _ IH]; [reflexivity|].
  unfold upload_attempts in *. simpl. rewrite Hev. exact IH.
Qed.

(** A call of [upload_files] is one attempt, with the arguments of the call. *)
Lemma upload_files_attempt (avif_files : list string) (album_title : option string)
    (headful : bool) (t : trace) (r : Res (list string)) (t' : trace) :
  upload_files E avif_files album_title headful t = (r, t') ->
  upload_attempts t' = upload_attempts t ++ [(avif_files, album_title, headful)].
Proof.
  intros Hrun. apply upload_files_session in Hrun as (evs & -> & Hevs).
  rewrite upload_attempts_app. f_equal.
  change (EvUploadFiles avif_files album_title headful :: evs)
    with ([EvUploadFiles avif_files album_title headful] ++ evs).
  rewrite upload_attempts_app, (upload_attempts_none evs Hevs). reflexivity.
Qed.

Lemma print_no_attempt (line : string) : emits no_attempt (print line).
Proof. unfold print. emits_step. reflexivity. Qed.

Lemma print_links_no_attempt (links : list string) :
  emits no_attempt (print_links links).
Proof.
  induction links as [|l rest IH]; simpl.
  - apply emits_ret.
  - emits_step; [apply print_no_attempt|exact IH].
Qed.

Lemma open_in_host_browser_no_attempt (url : string) :
  emits no_attempt (open_in_host_browser E url).
Proof.
  unfold open_in_host_browser.
  destruct (negb _); [apply print_no_attempt|emits_step; reflexivity].
Qed.

Lemma open_first_no_attempt (args : Args) (links : list string) :
  emits no_attempt (open_first E args links).
Proof.
  unfold open_first. destruct links; [apply emits_ret|].
  apply emits_when, open_in_host_browser_no_attempt.
Qed.

Lemma emits_attempts {A} (m : M A) (t : trace) (r : Res A) (t' : trace) :
  emits no_attempt m -> m t = (r, t') -> upload_attempts t' = upload_attempts t.
Proof.
  intros Hm Hrun. destruct (Hm _ _ _ Hrun) as (evs & -> & Hevs).
  rewrite upload_attempts_app, (upload_attempts_none evs Hevs). apply app_nil_r.
Qed.

(** The fallback loop makes its planned attempts in order; it makes all
    of them unless an attempt ends in an exception, which ends the loop. *)
Lemma fallback_from_attempts (args : Args) (files : list string) (idxs : list Z)
    (all_links : list string) (t : trace) (r : Res (list string)) (t' : trace) :
  fallback_from E args files idxs all_links t = (r, t') ->
  exists k : nat,
    upload_attempts t' = upload_attempts t ++ take k (planned_attempts args files idxs)
    /\ ((exists v, r = Ok v) -> k = length idxs).
Proof.
  revert all_links t. induction idxs as [|i rest IH]; intros all_links t Hrun; simpl in Hrun.
  - inversion Hrun; subst. exists 0%nat. rewrite app_nil_r. auto.
  - apply bind_inv in Hrun as [(u & t1 & Hprint & Hrun)|(e & Hprint & _)];
      [|discriminate].
    pose proof (emits_attempts _ _ _ _ (print_no_attempt _) Hprint) as Hat1.
    apply bind_inv in Hrun as [(links & t2 & Hup & Hrun)|(e & Hup & ->)].
    + pose proof (upload_files_attempt _ _ _ _ _ _ Hup) as Hat2.
      apply bind_inv in Hrun as [(u' & t3 & Hopen & Hrun)|(e & Hopen & ->)].
      * pose proof (emits_attempts _ _ _ _ (open_first_no_attempt _ _) Hopen) as Hat3.
        destruct (IH _ _ Hrun) as (k & Hk & Hall).
        exists (S k). split.
        -- rewrite Hk, Hat3, Hat2, Hat1. simpl. rewrite <- app_assoc. reflexivity.
        -- intros Hok. rewrite (Hall Hok). reflexivity.
      * pose proof (emits_attempts _ _ _ _ (open_first_no_attempt _ _) Hopen) as Hat3.
        exists 1%nat. split.
        -- rewrite Hat3, Hat2, Hat1. simpl. rewrite take_0. reflexivity.
        -- intros [v Hv]. discriminate.
    + pose proof (upload_files_attempt _ _ _ _ _ _ Hup) as Hat2.
      exists 1%nat. split.
      * rewrite Hat2, Hat1. simpl. rewrite take_0. reflexivity.
      * intros [v Hv]. discriminate.
Qed.

End Functions.

(** ** main *)

Lemma truthy_list_nonempty {A} (l : list A) : l <> [] -> truthy_list l = true.
Proof. destruct l; [contradiction|reflexivity]. Qed.

(** Where [main] stands once the initial attempt has yielded no link. *)
Lemma main_after_empty_initial_attempt (E : Env) (args : Args) (files : list string)
    (t t1 : trace) :
  collect_avif_files E (dir args) = Ok files ->
  files <> [] ->
  upload_files E (slice files None (Some (batch_size args))) (album args) (headful args)
    (t ++ [EvPrint (found_line files)]) = (Ok [], t1) ->
  main E args t
  = (let* idxs := lift (range 0 (len files) (batch_size args)) in
     let* all_links := fallback_from E args files idxs [] in
     if truthy_list all_links then
       print "Collected links:" >> print_links all_links
     else
       print "No links produced. Run with --headful to watch and debug the upload process.")
      (t1 ++ [EvPrint "No album link found for single upload; falling back to batch uploads..."]).
Proof.
  intros Hfiles Hne Hup. unfold main. rewrite Hfiles.
  rewrite (bind_Ok _ _ t t files eq_refl).
  rewrite (truthy_list_nonempty files Hne). cbn [negb].
  rewrite (bind_Ok _ _ t (t ++ [EvPrint (found_line files)]) tt eq_refl).
  rewrite (bind_Ok _ _ _ _ _ Hup). cbn [truthy_list].
  rewrite (bind_Ok _ _ t1 (t1 ++ [EvPrint "No album link found for single upload; falling back to batch uploads..."]) tt eq_refl).
  reflexivity.
Qed.

Lemma main_fallback_attempts (E : Env) (args : Args) (files : list string)
    (t t1 t' : trace) (r : Res unit) :
  collect_avif_files E (dir args) = Ok files ->
  files <> [] ->
  upload_files E (slice files None (Some (batch_size args))) (album args) (headful args)
    (t ++ [EvPrint (found_line files)]) = (Ok [], t1) ->
  main E args t = (r, t') ->
  match range 0 (len files) (batch_size args) with
  | Ok idxs =>
      exists k : nat,
        upload_attempts t'
        = upload_attempts t1 ++ take k (planned_attempts args files idxs)
        /\ (r = Ok tt -> k = length idxs)
  | Raise e => r = Raise e /\ upload_attempts t' = upload_attempts t1
  end.
Proof.
  intros Hfiles Hne Hup Hmain.
  rewrite (main_after_empty_initial_attempt E args files t t1 Hfiles Hne Hup) in Hmain.
  rewrite bind_unfold in Hmain. unfold lift at 1 in Hmain.
  assert (Hnote : forall line, upload_attempts (t1 ++ [EvPrint line]) = upload_attempts t1).
  { intros line. rewrite upload_attempts_app. apply app_nil_r. }
  destruct (range 0 (len files) (batch_size args)) as [idxs|e].
  - cbv iota beta in Hmain.
    apply bind_inv in Hmain as [(all_links & t2 & Hloop & Hend)|(e & Hloop & ->)].
    + destruct (fallback_from_attempts E _ _ _ _ _ _ _ Hloop) as (k & Hk & Hall).
      exists k. split.
      * assert (Hem : emits no_attempt
                  (if truthy_list all_links
                   then print "Collected links:" >> print_links all_links
                   else print "No links produced. Run with --headful to watch and debug the upload process.")).
        { destruct (truthy_list all_links).
          - emits_step; [apply print_no_attempt|apply print_links_no_attempt].
          - apply print_no_attempt. }
        rewrite (emits_attempts _ _ _ _ Hem Hend), Hk, Hnote. reflexivity.
      * intros _. apply Hall. eauto.
    + destruct (fallback_from_attempts E _ _ _ _ _ _ _ Hloop) as (k & Hk & Hall).
      exists k. split; [rewrite Hk, Hnote; reflexivity|discriminate].
  - cbv iota beta in Hmain. inversion Hmain; subst. split; [reflexivity|apply Hnote].
Qed.

Lemma slice_prefix {A} (l : list A) (bs : Z) :
  0 < bs -> slice l None (Some bs) = take (Z.to_nat bs) l.
Proof.
  intros Hbs. unfold slice, clamp_index. simpl.
  destruct (decide (bs < 0)); [lia|].
  destruct (decide (bs <= len l)).
  - rewrite Z.min_l by lia. reflexivity.
  - rewrite Z.min_r by lia. unfold len. rewrite Nat2Z.id, firstn_all.
    rewrite take_ge; [reflexivity|unfold len in *; lia].
Qed.

Lemma planned_attempts_files (args : Args) (files : list string) (idxs : list Z) :
  map attempt_files (planned_attempts args files idxs)
  = map (batch_of files (batch_size args)) idxs.
Proof. unfold planned_attempts. rewrite map_map. reflexivity. Qed.

(** C1, as amended.  The initial attempt of [main] is over the first
    batch_size files, [files[:batch_size]].  When that attempt yields no
    link and batch_size is positive, [main] splits the whole list of files
    into fixed-size batches, the slices [files[i:i+batch_size]] at the
    indices of [range(0, len(files), batch_size)]: batch j holds the
    batch_size files from position j * batch_size on (the last batch what
    is left of them), and the batches put end to end are the list.  It
    calls [upload_files] on the batches one after the other, in order: the
    attempts recorded after the initial one are these batches, all of them
    when [main] returns, and the first k of them when an attempt ends
    [main] with an exception. *)
Theorem fallback_uploads_batches_in_order (E : Env) (args : Args)
    (files : list string) (t t1 t' : trace) (r : Res unit) :
  collect_avif_files E (dir args) = Ok files ->
  files <> [] ->
  0 < batch_size args ->
  upload_files E (slice files None (Some (batch_size args))) (album args) (headful args)
    (t ++ [EvPrint (found_line files)]) = (Ok [], t1) ->
  main E args t = (r, t') ->
  map attempt_files (upload_attempts t1)
  = map attempt_files (upload_attempts t) ++ [take (Z.to_nat (batch_size args)) files]
  /\ exists (idxs : list Z) (k : nat),
       range 0 (len files) (batch_size args) = Ok idxs
       /\ let groups :=
            map (fun i => slice files (Some i) (Some (i + batch_size args))) idxs in
          concat groups = files
          /\ Forall (fun g => len g <= batch_size args) groups
          /\ (forall (j : nat) (g : list string),
                groups !! j = Some g ->
                g = take (Z.to_nat (batch_size args))
                      (drop (j * Z.to_nat (batch_size args)) files))
          /\ map attempt_files (upload_attempts t')
             = map attempt_files (upload_attempts t1) ++ take k groups
          /\ (r = Ok tt -> k = length groups).
Proof.
  intros Hfiles Hne Hbs Hup Hmain. split.
  - rewrite (upload_files_attempt _ _ _ _ _ _ _ Hup), upload_attempts_app.
    simpl. rewrite app_nil_r, map_app. simpl. unfold attempt_files at 3. simpl.
    rewrite slice_prefix by assumption. reflexivity.
  - pose proof (main_fallback_attempts E args files t t1 t' r Hfiles Hne Hup Hmain) as Hatt.
    destruct (batches_partition files (batch_size args) Hbs) as (idxs & Hr & _ & Hall & Hcat).
    rewrite Hr in Hatt. destruct Hatt as (k & Hk & Hlen).
    exists idxs, k. split; [exact Hr|]. cbv zeta. fold (batch_of files (batch_size args)).
    split; [exact Hcat|]. split; [exact Hall|]. split; [|split].
    + intros j g Hj. eapply batches_shape; eassumption.
    + rewrite Hk, map_app, <- firstn_map, planned_attempts_files. reflexivity.
    + intros Hr'. rewrite length_map. auto.
Qed.

Lemma fallback_uploads_batches_in_order_witness :
  map attempt_files (upload_attempts (main blank_env (sample_args "imgs" None false 2) []).2)
  = [ ["imgs/b.avif"; "imgs/c.avif"];
      ["imgs/b.avif"; "imgs/c.avif"]; ["imgs/sub/a.avif"] ].
Proof.
  pose (args := sample_args "imgs" None false 2).
  pose (files := ["imgs/b.avif"; "imgs/c.avif"; "imgs/sub/a.avif"]).
  pose (run := upload_files blank_env (slice files None (Some 2)) None false
                 [EvPrint (found_line files)]).
  destruct (fallback_uploads_batches_in_order blank_env args files [] run.2
              (main blank_env args []).2 (main blank_env args []).1)
    as (_ & idxs & k & _).
  - vm_compute. reflexivity.
  - discriminate.
  - vm_compute. reflexivity.
  - vm_compute. reflexivity.
  - vm_compute. reflexivity.
  - vm_compute. reflexivity.
Defined.

(** C1, as stated, fails: with three files and a batch size of two, the
    initial attempt of [main] is over two files, not over the whole set. *)
Lemma initial_attempt_not_over_all_files :
  ~ (forall (E : Env) (args : Args) (files : list string),
       collect_avif_files E (dir args) = Ok files ->
       files <> [] ->
       head (map attempt_files (upload_attempts (main E args []).2)) = Some files).
Proof.
  intros Hclaim.
  specialize (Hclaim blank_env (sample_args "imgs" None false 2)
                ["imgs/b.avif"; "imgs/c.avif"; "imgs/sub/a.avif"]).
  vm_compute in Hclaim.
  specialize (Hclaim eq_refl ltac:(discriminate)). discriminate.
Qed.

(** C3. For every list of N files and every positive batch size, the
    batch loop of [main] partitions the list into ceil(N / batch_size)
    consecutive groups: the loop runs over the indices of
    [range(0, N, batch_size)] and cuts the group [files[i:i+batch_size]]
    at each; the number of groups k is (N + batch_size - 1) / batch_size,
    that is the k with batch_size * (k - 1) < N <= batch_size * k; no group
    holds more than batch_size files; group j is the batch_size files from
    position j * batch_size on; and the groups, put end to end in order, are
    the list itself, so that every file lies in exactly one group.  The
    loop hands exactly these groups to [upload_files], in order, all of
    them when it ends without exception, and [main] runs this loop once
    the initial attempt has yielded no link. *)
Theorem batch_loop_partitions (E : Env) (args : Args) (files : list string) :
  0 < batch_size args ->
  exists idxs : list Z,
    range 0 (len files) (batch_size args) = Ok idxs /\
    let groups :=
      map (fun i => slice files (Some i) (Some (i + batch_size args))) idxs in
    len groups = (len files + batch_size args - 1) / batch_size args /\
    batch_size args * (len groups - 1) < len files <= batch_size args * len groups /\
    Forall (fun g => len g <= batch_size args) groups /\
    concat groups = files /\
    (forall (j : nat) (g : list string),
       groups !! j = Some g ->
       g = take (Z.to_nat (batch_size args))
             (drop (j * Z.to_nat (batch_size args)) files)) /\
    (forall (all_links : list string) (t t' : trace) (r : Res (list string)),
       fallback_from E args files idxs all_links t = (r, t') ->
       exists k : nat,
         map attempt_files (upload_attempts t')
         = map attempt_files (upload_attempts t) ++ take k groups
         /\ ((exists v, r = Ok v) -> k = length groups)) /\
    (forall (t t1 t' : trace) (r : Res unit),
       collect_avif_files E (dir args) = Ok files ->
       files <> [] ->
       upload_files E (slice files None (Some (batch_size args))) (album args)
         (headful args) (t ++ [EvPrint (found_line files)]) = (Ok [], t1) ->
       main E args t = (r, t') ->
       exists k : nat,
         map attempt_files (upload_attempts t')
         = map attempt_files (upload_attempts t1) ++ take k groups
         /\ (r = Ok tt -> k = length groups)).
Proof.
  intros Hbs.
  destruct (batches_partition files (batch_size args) Hbs)
    as (idxs & Hr & Hlen & Hall & Hcat).
  exists idxs. split; [exact Hr|]. cbv zeta. fold (batch_of files (batch_size args)).
  split; [exact Hlen|]. split.
  { rewrite Hlen.
    pose proof (Z.div_mod (len files + batch_size args - 1) (batch_size args) ltac:(lia))
      as Hdm.
    pose proof (Z.mod_pos_bound (len files + batch_size args - 1) (batch_size args) Hbs)
      as Hmod.
    nia. }
  split; [exact Hall|]. split; [exact Hcat|]. split; [|split].
  - intros j g Hj. eapply batches_shape; eassumption.
  - intros all_links t t' r Hloop.
    destruct (fallback_from_attempts E _ _ _ _ _ _ _ Hloop) as (k & Hk & Hdone).
    exists k. split.
    + rewrite Hk, map_app, <- firstn_map, planned_attempts_files. reflexivity.
    + intros Hok. rewrite length_map. auto.
  - intros t t1 t' r Hfiles Hne Hup Hmain.
    pose proof (main_fallback_attempts E args files t t1 t' r Hfiles Hne Hup Hmain) as Hatt.
    rewrite Hr in Hatt. destruct Hatt as (k & Hk & Hdone).
    exists k. split.
    + rewrite Hk, map_app, <- firstn_map, planned_attempts_files. reflexivity.
    + intros Hok. rewrite length_map. auto.
Qed.

Lemma batch_loop_partitions_witness :
  exists idxs : list Z,
    range 0 (len ["a"; "b"; "c"; "d"; "e"]) 2 = Ok idxs /\
    map (fun i => slice ["a"; "b"; "c"; "d"; "e"] (Some i) (Some (i + 2))) idxs
    = [["a"; "b"]; ["c"; "d"]; ["e"]] /\
    map attempt_files
      (upload_attempts
         (fallback_from blank_env (sample_args "imgs" None false 2)
            ["a"; "b"; "c"; "d"; "e"] idxs [] []).2)
    = [["a"; "b"]; ["c"; "d"]; ["e"]].
Proof.
  destruct (batch_loop_partitions blank_env (sample_args "imgs" None false 2)
              ["a"; "b"; "c"; "d"; "e"] ltac:(simpl; lia))
    as (idxs & Hr & _).
  exists idxs. split; [exact Hr|].
  vm_compute in Hr. injection Hr as <-. split; vm_compute; reflexivity.
Defined.

(** Only the first index that the batch loop runs over is zero. *)
Lemma range_from_zero_index (n bs : Z) (idxs : list Z) (j : nat) (i : Z) :
  0 <= n ->
  range 0 n bs = Ok idxs ->
  idxs !! j = Some i ->
  (i =? 0) = bool_decide (j = 0%nat).
Proof.
  intros Hn. unfold range.
  destruct (decide (0 < bs)) as [Hpos|Hnpos].
  - intros Hr Hj. injection Hr as <-. revert Hj. simp range_up.
    destruct (decide (0 < n)) as [Hlt|Hge]; simpl; [|rewrite lookup_nil; discriminate].
    destruct j as [|j]; simpl.
    + intros [= <-]. reflexivity.
    + intros Hj. pose proof (range_up_lower_bound (0 + bs) n bs Hpos) as Hlow.
      rewrite Forall_forall in Hlow.
      assert (0 + bs <= i) by (apply Hlow; eapply list_elem_of_lookup_2; eassumption).
      destruct (Z.eqb_spec i 0); [lia|reflexivity].
  - destruct (decide (bs < 0)) as [Hneg|]; [|discriminate].
    intros Hr Hj. injection Hr as <-.
    rewrite range_down_from_zero in Hj by assumption.
    rewrite lookup_nil in Hj. discriminate.
Qed.

(** C10. In the fallback batch loop the album title of --album goes to
    [upload_files] with the first batch only, the one at index 0: among
    the attempts that [main] makes after an initial attempt without
    links, the first carries the title and every later one carries none. *)
Theorem fallback_album_title_first_batch_only (E : Env) (args : Args)
    (files : list string) (t t1 t' : trace) (r : Res unit)
    (j : nat) (a : list string * option string * bool) :
  collect_avif_files E (dir args) = Ok files ->
  files <> [] ->
  upload_files E (slice files None (Some (batch_size args))) (album args) (headful args)
    (t ++ [EvPrint (found_line files)]) = (Ok [], t1) ->
  main E args t = (r, t') ->
  drop (length (upload_attempts t1)) (upload_attempts t') !! j = Some a ->
  attempt_album a = if bool_decide (j = 0%nat) then album args else None.
Proof.
  intros Hfiles Hne Hup Hmain Hj.
  pose proof (main_fallback_attempts E args files t t1 t' r Hfiles Hne Hup Hmain) as Hatt.
  destruct (range 0 (len files) (batch_size args)) as [idxs|e] eqn:Hr.
  - destruct Hatt as (k & Hk & _). rewrite Hk, drop_app_length in Hj.
    apply lookup_take_Some in Hj as [Hj _].
    unfold planned_attempts in Hj. rewrite list_lookup_fmap in Hj.
    destruct (idxs !! j) as [i|] eqn:Hi; [|discriminate].
    simpl in Hj. injection Hj as <-. unfold attempt_album. simpl.
    rewrite (range_from_zero_index (len files) (batch_size args) idxs j i);
      [reflexivity|unfold len; lia|assumption|assumption].
  - destruct Hatt as (_ & Hsame). rewrite Hsame, drop_all in Hj.
    rewrite lookup_nil in Hj. discriminate.
Qed.

Lemma fallback_album_title_first_batch_only_witness :
  map attempt_album
    (drop 1 (upload_attempts
               (main blank_env (sample_args "imgs" (Some "Quiz") false 2) []).2))
  = [Some "Quiz"; None].
Proof.
  pose (args := sample_args "imgs" (Some "Quiz") false 2).
  pose (files := ["imgs/b.avif"; "imgs/c.avif"; "imgs/sub/a.avif"]).
  pose (run := upload_files blank_env (slice files None (Some 2)) (Some "Quiz") false
                 [EvPrint (found_line files)]).
  assert (H0 : attempt_album (["imgs/b.avif"; "imgs/c.avif"], Some "Quiz", false)
               = Some "Quiz").
  { apply (fallback_album_title_first_batch_only blank_env args files [] run.2
             (main blank_env args []).2 (main blank_env args []).1 0%nat);
      vm_compute; first [reflexivity|discriminate]. }
  assert (H1 : attempt_album (["imgs/sub/a.avif"], None, false) = None).
  { apply (fallback_album_title_first_batch_only blank_env args files [] run.2
             (main blank_env args []).2 (main blank_env args []).1 1%nat);
      vm_compute; first [reflexivity|discriminate]. }
  vm_compute. reflexivity.
Defined.

(** ** upload_files *)

(** What [upload_files] returns went through the deduplication loop. *)
Lemma upload_files_returns_deduped (E : Env) (avif_files : list string)
    (album_title : option string) (headful : bool) (t t' : trace) (l : list string) :
  upload_files E avif_files album_title headful t = (Ok l, t') ->
  l = [] \/ exists results, l = dedupe results.
Proof.
  unfold upload_files, async_playwright. intros Hrun.
  apply bind_Ok_inv in Hrun as (u0 & t0 & _ & Hrun).
  apply bind_Ok_inv in Hrun as (u1 & t1 & _ & Hrun).
  apply with_exit_Ok_inv in Hrun as (t2 & Hrun & _).
  apply bind_Ok_inv in Hrun as (u2 & t3 & _ & Hrun).
  apply bind_Ok_inv in Hrun as (u3 & t4 & _ & Hrun).
  apply bind_Ok_inv in Hrun as (u4 & t5 & _ & Hrun).
  apply bind_Ok_inv in Hrun as ([file_input used_sel] & t6 & _ & Hrun).
  destruct file_input as [input|].
  - apply bind_Ok_inv in Hrun as (multiple & t7 & _ & Hrun).
    apply bind_Ok_inv in Hrun as (u5 & t8 & _ & Hrun).
    apply bind_Ok_inv in Hrun as (results & t9 & _ & Hrun).
    apply bind_Ok_inv in Hrun as (u6 & t10 & _ & Hrun).
    inversion Hrun; subst. right. eauto.
  - apply bind_Ok_inv in Hrun as (u5 & t7 & _ & Hrun).
    apply bind_Ok_inv in Hrun as (u6 & t8 & _ & Hrun).
    inversion Hrun; subst. left. reflexivity.
Qed.

(** The loop over the files returns the links that its calls of
    [collect_result_links] returned, put end to end after the links it
    started with. *)
Lemma upload_each_results (E : Env) (file_input : Elem) (album_title : option string)
    (total i : Z) (files results : list string) (t t' : trace) (l : list string) :
  upload_each E file_input album_title total i files results t = (Ok l, t') ->
  exists lls : list (list string),
    l = results ++ concat lls
    /\ length lls = length files
    /\ Forall (fun ll => exists t1 t2, collect_result_links E 60000 t1 = (Ok ll, t2)) lls.
Proof.
  revert i results t. induction files as [|f rest IH]; intros i results t Hrun;
    simpl in Hrun.
  - injection Hrun as <- _. exists []. rewrite app_nil_r. auto.
  - apply bind_Ok_inv in Hrun as (u1 & t1 & _ & Hrun).
    apply bind_Ok_inv in Hrun as (u2 & t2 & _ & Hrun).
    apply bind_Ok_inv in Hrun as (u3 & t3 & _ & Hrun).
    apply bind_Ok_inv in Hrun as (u4 & t4 & _ & Hrun).
    apply bind_Ok_inv in Hrun as (links & t5 & Hlinks & Hrun).
    apply bind_Ok_inv in Hrun as (u6 & t6 & _ & Hrun).
    apply IH in Hrun as (lls & -> & Hlen & Hall).
    exists (links :: lls). split; [|split].
    + simpl. destruct links; simpl; [reflexivity|].
      rewrite <- app_assoc. reflexivity.
    + simpl. rewrite Hlen. reflexivity.
    + constructor; [eauto|exact Hall].
Qed.

(** What [upload_files] returns is the deduplication of the links it
    collected. *)
Lemma upload_files_returns_collected (E : Env) (avif_files : list string)
    (album_title : option string) (headful : bool) (t t' : trace) (l : list string) :
  upload_files E avif_files album_title headful t = (Ok l, t') ->
  exists (file_input : option Elem) (used_sel : option string) (t5 : trace),
    find_file_input E (t ++ session_start avif_files album_title headful)
    = (Ok (file_input, used_sel), t5)
    /\ match file_input with
       | None => l = []
       | Some input =>
           exists (multiple : bool) (results : list string) (t8 : trace),
             el_evaluate E t5 input "el => !!el.multiple" = Ok multiple
             /\ collecting E avif_files album_title input used_sel multiple
                  (t5 ++ EvEvaluate input "el => !!el.multiple"
                      :: (if multiple then [] else [EvPrint SEQUENTIAL_LINE]))
                = (Ok results, t8)
             /\ t' = t8 ++ [EvClose; EvPlaywrightStop]
             /\ l = dedupe results
       end.
Proof.
  unfold upload_files, async_playwright. intros Hrun.
  apply bind_Ok_inv in Hrun as (u0 & t0 & H0 & Hrun).
  unfold emit in H0. injection H0 as _ <-.
  apply bind_Ok_inv in Hrun as (u1 & t1 & H1 & Hrun).
  unfold perform in H1. injection H1 as _ <-.
  apply with_exit_Ok_inv in Hrun as (t2 & Hrun & Hstop).
  unfold perform in Hstop. injection Hstop as _ <-.
  apply bind_Ok_inv in Hrun as (u2 & t3 & H2 & Hrun).
  unfold launch, perform in H2. injection H2 as _ <-.
  apply bind_Ok_inv in Hrun as (u3 & t4 & H3 & Hrun).
  unfold new_page, perform in H3. injection H3 as _ <-.
  apply bind_Ok_inv in Hrun as (u4 & t5 & H4 & Hrun).
  unfold goto, perform in H4. injection H4 as _ <-.
  apply bind_Ok_inv in Hrun as ([file_input used_sel] & t6 & H5 & Hrun).
  exists file_input, used_sel, t6. split.
  { unfold session_start. rewrite <- H5. f_equal. rewrite <- !app_assoc. reflexivity. }
  destruct file_input as [input|].
  - apply bind_Ok_inv in Hrun as (multiple & t7 & H7 & Hrun).
    unfold evaluate, perform in H7.
    destruct (el_evaluate E t6 input "el => !!el.multiple") as [m|] eqn:Heval;
      [|discriminate].
    injection H7 as -> <-.
    apply bind_Ok_inv in Hrun as (u8 & t8 & H8 & Hrun).
    apply bind_Ok_inv in Hrun as (results & t9 & H9 & Hrun).
    apply bind_Ok_inv in Hrun as (u10 & t10 & H10 & Hrun).
    unfold close, perform in H10. injection H10 as _ <-.
    injection Hrun as <- <-.
    exists multiple, results, t9. split; [reflexivity|]. split; [|split].
    + unfold collecting. destruct multiple; simpl in H8;
        unfold ret, print, emit in H8; injection H8 as _ <-.
      * exact H9.
      * rewrite <- app_assoc in H9. exact H9.
    + rewrite <- app_assoc. reflexivity.
    + reflexivity.
  - apply bind_Ok_inv in Hrun as (u5 & t7 & _ & Hrun).
    apply bind_Ok_inv in Hrun as (u6 & t8 & _ & Hrun).
    injection Hrun as <- _. reflexivity.
Qed.

(** The links collected are what the calls of [collect_result_links]
    returned, in order: the one call of the single request, or one call
    per file. *)
Lemma collecting_results (E : Env) (avif_files : list string)
    (album_title : option string) (input : Elem) (used_sel : option string)
    (multiple : bool) (t t' : trace) (results : list string) :
  collecting E avif_files album_title input used_sel multiple t = (Ok results, t') ->
  exists lls : list (list string),
    results = concat lls
    /\ length lls = (if multiple then 1%nat else length avif_files)
    /\ Forall (fun ll => exists timeout_ms t1 t2,
                  collect_result_links E timeout_ms t1 = (Ok ll, t2)) lls.
Proof.
  unfold collecting. destruct multiple; intros Hrun.
  - apply bind_Ok_inv in Hrun as (u1 & t1 & _ & Hrun).
    apply bind_Ok_inv in Hrun as (u2 & t2 & _ & Hrun).
    apply bind_Ok_inv in Hrun as (u3 & t3 & _ & Hrun).
    apply bind_Ok_inv in Hrun as (clicked & t4 & _ & Hrun).
    apply bind_Ok_inv in Hrun as (u5 & t5 & _ & Hrun).
    apply bind_Ok_inv in Hrun as (links & t6 & Hlinks & Hrun).
    injection Hrun as <- _. exists [links]. simpl. rewrite app_nil_r.
    split; [reflexivity|]. split; [reflexivity|]. constructor; [eauto|constructor].
  - apply upload_each_results in Hrun as (lls & -> & Hlen & Hall).
    exists lls. split; [reflexivity|]. split; [exact Hlen|].
    eapply Forall_impl; [exact Hall|]. intros ll (t1 & t2 & Hll). eauto.
Qed.

(** C2. For every list of collected links, the deduplication loop of
    [upload_files] returns a list without duplicates that holds exactly
    the links collected, in the order of their first occurrences: of two
    links of the result, the earlier one first occurs earlier among the
    collected links.  What [upload_files] returns is the outcome of that
    loop on the links it collected (the empty list when no file input was
    found, the links of its calls of [collect_result_links] otherwise), and
    has therefore no duplicates. *)
Theorem dedupe_first_occurrence_order (results : list string) :
  NoDup (dedupe results)
  /\ (forall u, u ∈ dedupe results <-> u ∈ results)
  /\ (forall (i j : nat) (x y : string),
        dedupe results !! i = Some x -> dedupe results !! j = Some y -> (i < j)%nat ->
        exists a b : nat,
          first_occurrence results x a /\ first_occurrence results y b /\ (a < b)%nat)
  /\ (forall (E : Env) (avif_files : list string) (album_title : option string)
        (headful : bool) (t t' : trace) (l : list string),
        upload_files E avif_files album_title headful t = (Ok l, t') ->
        NoDup l
        /\ exists (file_input : option Elem) (used_sel : option string) (t5 : trace),
             find_file_input E (t ++ session_start avif_files album_title headful)
             = (Ok (file_input, used_sel), t5)
             /\ match file_input with
                | None => l = []
                | Some input =>
                    exists (multiple : bool) (collected : list string) (t8 : trace),
                      el_evaluate E t5 input "el => !!el.multiple" = Ok multiple
                      /\ collecting E avif_files album_title input used_sel multiple
                           (t5 ++ EvEvaluate input "el => !!el.multiple"
                               :: (if multiple then [] else [EvPrint SEQUENTIAL_LINE]))
                         = (Ok collected, t8)
                      /\ t' = t8 ++ [EvClose; EvPlaywrightStop]
                      /\ l = dedupe collected
                      /\ exists lls : list (list string),
                           collected = concat lls
                           /\ length lls
                              = (if multiple then 1%nat else length avif_files)
                           /\ Forall (fun ll => exists timeout_ms t1 t2,
                                         collect_result_links E timeout_ms t1
                                         = (Ok ll, t2)) lls
                end).
Proof.
  destruct (dedupe_spec results) as [Hnd Hel Hord].
  split; [exact Hnd|]. split; [exact Hel|]. split; [exact Hord|].
  intros E avif_files album_title headful t t' l Hrun. split.
  - apply upload_files_returns_deduped in Hrun as [->|[collected ->]].
    + constructor.
    + apply dedupe_spec.
  - apply upload_files_returns_collected in Hrun
      as (file_input & used_sel & t5 & Hfind & Hcase).
    exists file_input, used_sel, t5. split; [exact Hfind|].
    destruct file_input as [input|]; [|exact Hcase].
    destruct Hcase as (multiple & collected & t8 & Heval & Hcol & Ht' & Hl).
    exists multiple, collected, t8. repeat (split; [assumption|]).
    eapply collecting_results. eassumption.
Qed.

Lemma dedupe_first_occurrence_order_witness :
  dedupe ["b"; "a"; "b"; "c"; "a"] = ["b"; "a"; "c"]
  /\ (exists a b : nat,
        first_occurrence ["b"; "a"; "b"; "c"; "a"] "a" a
        /\ first_occurrence ["b"; "a"; "b"; "c"; "a"] "c" b /\ (a < b)%nat)
  /\ NoDup ["https://postimg.cc/abc"].
Proof.
  destruct (dedupe_first_occurrence_order ["b"; "a"; "b"; "c"; "a"])
    as (_ & _ & Hord & Hup).
  split; [vm_compute; reflexivity|]. split.
  - apply (Hord 1%nat 2%nat "a" "c"); [vm_compute; reflexivity|vm_compute; reflexivity|lia].
  - apply (Hup (linked_env None) ["imgs/b.avif"] None false []
             (upload_files (linked_env None) ["imgs/b.avif"] None false []).2).
    vm_compute. reflexivity.
Defined.

(** ** A missing directory *)

Lemma collect_avif_files_found (E : Env) (base_dir : string) (n : node) :
  fs_lookup E (Path E base_dir) = Some n ->
  collect_avif_files E base_dir
  = Ok (sorted (map (fun rel => str_path (joinpath (Path E base_dir) rel))
                  (rglob_star ".avif" n))).
Proof.
  intros Hfound. unfold collect_avif_files, path_exists, rglob_avif.
  rewrite Hfound, map_map. reflexivity.
Qed.

Lemma collect_avif_files_missing (E : Env) (base_dir : string) :
  fs_lookup E (Path E base_dir) = None ->
  stat_error E (Path E base_dir) = None ->
  collect_avif_files E base_dir
  = Raise (SystemExit ("Directory not found: " +:+ base_dir)).
Proof.
  intros Hmissing Hstat. unfold collect_avif_files, path_exists.
  rewrite Hmissing, Hstat. reflexivity.
Qed.

Lemma collect_avif_files_stat_error (E : Env) (base_dir : string) (e : exn) :
  fs_lookup E (Path E base_dir) = None ->
  stat_error E (Path E base_dir) = Some e ->
  collect_avif_files E base_dir = Raise e.
Proof.
  intros Hmissing Hstat. unfold collect_avif_files, path_exists.
  rewrite Hmissing, Hstat. reflexivity.
Qed.

Lemma main_collect_failure (E : Env) (args : Args) (t : trace) (e : exn) :
  collect_avif_files E (dir args) = Raise e -> main E args t = (Raise e, t).
Proof. intros Hraise. unfold main. rewrite Hraise. reflexivity. Qed.

(** C9, as amended.  For every path at which nothing is found,
    [collect_avif_files] returns no list.  When [base.exists()] answers
    False it raises SystemExit with the diagnostic message; when
    [base.exists()] itself raises (a name too long, a folder that may not
    be searched) that exception leaves [collect_avif_files] instead.  Either
    way [main] ends with the same exception before it has printed, uploaded
    or opened anything. *)
Theorem missing_dir_raises_SystemExit (E : Env) (base_dir : string) :
  fs_lookup E (Path E base_dir) = None ->
  (stat_error E (Path E base_dir) = None ->
   collect_avif_files E base_dir
   = Raise (SystemExit ("Directory not found: " +:+ base_dir))
   /\ forall (args : Args) (t : trace),
        dir args = base_dir ->
        main E args t = (Raise (SystemExit ("Directory not found: " +:+ base_dir)), t))
  /\ (forall e : exn,
        stat_error E (Path E base_dir) = Some e ->
        collect_avif_files E base_dir = Raise e
        /\ forall (args : Args) (t : trace),
             dir args = base_dir -> main E args t = (Raise e, t)).
Proof.
  intros Hmissing. split.
  - intros Hstat.
    pose proof (collect_avif_files_missing E base_dir Hmissing Hstat) as Hraise.
    split; [exact Hraise|]. intros args t Hdir. apply main_collect_failure.
    rewrite Hdir. exact Hraise.
  - intros e Hstat.
    pose proof (collect_avif_files_stat_error E base_dir e Hmissing Hstat) as Hraise.
    split; [exact Hraise|]. intros args t Hdir. apply main_collect_failure.
    rewrite Hdir. exact Hraise.
Qed.

Lemma missing_dir_raises_SystemExit_witness :
  main blank_env (sample_args "nowhere" None true 500) []
  = (Raise (SystemExit "Directory not found: nowhere"), [])
  /\ main long_name_env (sample_args "nowhere" None true 500) []
     = (Raise NAME_TOO_LONG, []).
Proof.
  split.
  - destruct (missing_dir_raises_SystemExit blank_env "nowhere") as [Hexit _].
    + vm_compute. reflexivity.
    + destruct (Hexit eq_refl) as [_ Hmain].
      apply (Hmain (sample_args "nowhere" None true 500) []). reflexivity.
  - destruct (missing_dir_raises_SystemExit long_name_env "nowhere") as [_ Herr].
    + reflexivity.
    + destruct (Herr NAME_TOO_LONG eq_refl) as [_ Hmain].
      apply (Hmain (sample_args "nowhere" None true 500) []). reflexivity.
Defined.

(** C9, as stated, fails: a name too long to exist is a path that does
    not exist, yet [collect_avif_files] ends there with the OSError of
    [base.exists()], not with SystemExit. *)
Lemma missing_dir_may_raise_OSError :
  ~ (forall (E : Env) (base_dir : string),
       fs_lookup E (Path E base_dir) = None ->
       exists msg : string, collect_avif_files E base_dir = Raise (SystemExit msg)).
Proof.
  intros Hclaim. destruct (Hclaim long_name_env "nowhere" eq_refl) as [msg Hraise].
  vm_compute in Hraise. discriminate.
Qed.

(** ** A page without file input *)

Lemma not_upload_action_query (ev : Event) : is_query ev -> ~ is_upload_action ev.
Proof. destruct ev; simpl; tauto. Qed.

(** C7. When the browser has started and the page has loaded but
    [find_file_input] finds no file input, [upload_files] ends the
    attempt: besides the queries of the probing it only prints the error
    line, closes the browser and leaves playwright; nothing it does sets
    input files, fills a field, clicks or presses a key; and it returns the
    empty list as soon as the closing calls succeed. *)
Theorem upload_files_without_file_input (E : Env) (avif_files : list string)
    (album_title : option string) (headful : bool) (t t4 t5 : trace) :
  playwright_start E (t ++ [EvUploadFiles avif_files album_title headful]) = Ok tt ->
  (launch E (negb headful) >> new_page E >> goto E HOME_URL)
    (t ++ [EvUploadFiles avif_files album_title headful; EvPlaywrightStart])
  = (Ok tt, t4) ->
  find_file_input E t4 = (Ok (None, None), t5) ->
  exists (r : Res (list string)) (queries : list Event),
    upload_files E avif_files album_title headful t
    = (r, t ++ session_start avif_files album_title headful ++ queries
            ++ [EvPrint MISSING_INPUT_LINE; EvClose; EvPlaywrightStop])
    /\ Forall is_query queries
    /\ Forall (fun ev => ~ is_upload_action ev)
         (session_start avif_files album_title headful ++ queries
          ++ [EvPrint MISSING_INPUT_LINE; EvClose; EvPlaywrightStop])
    /\ (browser_close E (t5 ++ [EvPrint MISSING_INPUT_LINE]) = Ok tt ->
        playwright_stop E (t5 ++ [EvPrint MISSING_INPUT_LINE; EvClose]) = Ok tt ->
        r = Ok []).
Proof.
  intros Hstart Hpage Hfind.
  assert (Ht4 : t4 = t ++ session_start avif_files album_title headful).
  { apply bind_Ok_inv in Hpage as (u1 & t1 & H1 & Hpage).
    apply bind_Ok_inv in Hpage as (u2 & t2 & H2 & H3).
    unfold launch, perform in H1. inversion H1; subst t1.
    unfold new_page, perform in H2. inversion H2; subst t2.
    unfold goto, perform in H3. inversion H3; subst t4.
    unfold session_start. rewrite <- !app_assoc. reflexivity. }
  destruct (find_file_input_queries E _ _ _ Hfind) as (queries & Ht5 & Hq).
  set (closing := [EvPrint MISSING_INPUT_LINE; EvClose; EvPlaywrightStop]).
  assert (Hrun : exists r,
    upload_files E avif_files album_title headful t = (r, t5 ++ closing)
    /\ (browser_close E (t5 ++ [EvPrint MISSING_INPUT_LINE]) = Ok tt ->
        playwright_stop E (t5 ++ [EvPrint MISSING_INPUT_LINE; EvClose]) = Ok tt ->
        r = Ok [])).
  { unfold upload_files, async_playwright.
    rewrite (bind_Ok _ _ t (t ++ [EvUploadFiles avif_files album_title headful]) tt eq_refl).
    erewrite (bind_Ok (perform EvPlaywrightStart (playwright_start E)));
      [|unfold perform; rewrite Hstart, <- app_assoc; reflexivity].
    unfold with_exit.
    apply bind_Ok_inv in Hpage as (u1 & t1 & H1 & Hpage).
    apply bind_Ok_inv in Hpage as (u2 & t2 & H2 & H3).
    rewrite (bind_Ok _ _ _ _ _ H1), (bind_Ok _ _ _ _ _ H2), (bind_Ok _ _ _ _ _ H3).
    rewrite (bind_Ok _ _ _ _ _ Hfind).
    rewrite (bind_Ok _ _ t5 (t5 ++ [EvPrint MISSING_INPUT_LINE]) tt eq_refl).
    unfold bind, close, perform, ret.
    destruct (browser_close E (t5 ++ [EvPrint MISSING_INPUT_LINE])) as [[]|e1];
      rewrite <- !app_assoc; simpl;
      destruct (playwright_stop E (t5 ++ [EvPrint MISSING_INPUT_LINE; EvClose])) as [[]|e2];
      eexists; (split; [reflexivity|]); intros; congruence. }
  destruct Hrun as (r & Hrun & Hok).
  exists r, queries. split; [|split; [exact Hq|split; [|exact Hok]]].
  - rewrite Hrun, Ht5, Ht4, <- !app_assoc. reflexivity.
  - apply Forall_app_2; [|apply Forall_app_2].
    + unfold session_start. repeat constructor; simpl; tauto.
    + eapply Forall_impl; [exact Hq|]. apply not_upload_action_query.
    + repeat constructor; simpl; tauto.
Qed.

Lemma upload_files_without_file_input_witness :
  upload_files blank_env ["imgs/b.avif"] None false []
  = (Ok [],
     session_start ["imgs/b.avif"] None false
     ++ map EvQuerySelector FILE_INPUT_SELECTORS
     ++ [EvPrint MISSING_INPUT_LINE; EvClose; EvPlaywrightStop]).
Proof.
  destruct (upload_files_without_file_input blank_env ["imgs/b.avif"] None false []
              (session_start ["imgs/b.avif"] None false)
              (session_start ["imgs/b.avif"] None false
               ++ map EvQuerySelector FILE_INPUT_SELECTORS))
    as (r & queries & Hrun & _ & _ & Hok).
  - reflexivity.
  - vm_compute. reflexivity.
  - vm_compute. reflexivity.
  - vm_compute. reflexivity.
Defined.

(** ** Opening the first link *)

Lemma open_in_host_browser_set (E : Env) (cmd url : string) (t : trace) :
  environ_get E "BROWSER" = Some cmd ->
  truthy_str cmd = true ->
  open_in_host_browser E url t = (Ok tt, t ++ [EvSystem (open_command cmd url)]).
Proof.
  intros Hget Hcmd. unfold open_in_host_browser. rewrite Hget. simpl.
  rewrite Hcmd. reflexivity.
Qed.

Lemma open_in_host_browser_unset (E : Env) (url : string) (t : trace) :
  truthy_opt_str (environ_get E "BROWSER") = false ->
  open_in_host_browser E url t = (Ok tt, t ++ [EvPrint BROWSER_HINT_LINE]).
Proof.
  intros Hget. unfold open_in_host_browser. rewrite Hget. reflexivity.
Qed.

Lemma print_links_run (links : list string) (t : trace) :
  print_links links t = (Ok tt, t ++ map (fun l => EvPrint (" - " +:+ l)) links).
Proof.
  revert t. induction links as [|l rest IH]; intros t; simpl.
  - unfold ret. rewrite app_nil_r. reflexivity.
  - rewrite (bind_Ok _ _ t (t ++ [EvPrint (" - " +:+ l)]) tt eq_refl), IH,
      <- app_assoc. reflexivity.
Qed.

Lemma system_calls_app (t1 t2 : trace) :
  system_calls (t1 ++ t2) = system_calls t1 ++ system_calls t2.
Proof. apply omap_app. Qed.

Lemma system_calls_link_lines (links : list string) :
  system_calls (map (fun l => EvPrint (" - " +:+ l)) links) = [].
Proof. induction links as [|l rest IH]; [reflexivity|exact IH]. Qed.

(** [main] after an initial attempt that produced links, with --open. *)
Lemma main_opens_after_links (E : Env) (args : Args) (files : list string)
    (t t1 : trace) (l0 : string) (ls : list string) :
  open args = true ->
  collect_avif_files E (dir args) = Ok files ->
  files <> [] ->
  upload_files E (slice files None (Some (batch_size args))) (album args)
    (headful args) (t ++ [EvPrint (found_line files)]) = (Ok (l0 :: ls), t1) ->
  main E args t
  = open_in_host_browser E l0
      (t1 ++ EvPrint "Upload produced the following link(s):"
          :: map (fun l => EvPrint (" - " +:+ l)) (l0 :: ls)).
Proof.
  intros Hopen Hfiles Hne Hup. unfold main. rewrite Hfiles.
  rewrite (bind_Ok _ _ t t files eq_refl).
  rewrite (truthy_list_nonempty files Hne). cbn [negb].
  rewrite (bind_Ok _ _ t (t ++ [EvPrint (found_line files)]) tt eq_refl).
  rewrite (bind_Ok _ _ _ _ _ Hup). cbn [truthy_list].
  rewrite (bind_Ok _ _ t1 (t1 ++ [EvPrint "Upload produced the following link(s):"])
             tt eq_refl).
  rewrite (bind_Ok _ _ _ _ _ (print_links_run (l0 :: ls) _)).
  unfold open_first. rewrite Hopen. cbn [when].
  rewrite <- !app_assoc. reflexivity.
Qed.

(** A turn of the fallback loop whose batch produced links, with --open. *)
Lemma fallback_turn_opens (E : Env) (args : Args) (files : list string) (i : Z)
    (rest : list Z) (all_links : list string) (t t1 t2 : trace) (l0 : string)
    (ls : list string) :
  open args = true ->
  upload_files E (slice files (Some i) (Some (i + batch_size args)))
    (if i =? 0 then album args else None) (headful args)
    (t ++ [EvPrint (batch_line args files i)]) = (Ok (l0 :: ls), t1) ->
  open_in_host_browser E l0 t1 = (Ok tt, t2) ->
  fallback_from E args files (i :: rest) all_links t
  = fallback_from E args files rest (all_links ++ l0 :: ls) t2.
Proof.
  intros Hopen Hup Hbrowser. cbn [fallback_from].
  rewrite (bind_Ok _ _ t (t ++ [EvPrint (batch_line args files i)]) tt eq_refl).
  rewrite (bind_Ok _ _ _ _ _ Hup).
  unfold open_first. rewrite Hopen. cbn [when].
  rewrite (bind_Ok _ _ _ _ _ Hbrowser). reflexivity.
Qed.

(** C8, as amended.  With --open given and $BROWSER holding a non-empty
    command, every upload attempt of [main] that produces a link is
    followed by [os.system] on that command and the first link of the
    attempt, in double quotes: after the initial attempt, once the links
    are printed, and in the fallback loop right after each batch that
    produced links.  With $BROWSER unset or empty the script opens nothing
    and prints a hint instead, at the same two places: [main] hands nothing
    to [os.system]. *)
Theorem open_runs_BROWSER_on_first_link (E : Env) (args : Args) :
  open args = true ->
  (forall cmd : string,
     environ_get E "BROWSER" = Some cmd ->
     truthy_str cmd = true ->
     (forall (files : list string) (t t1 : trace) (l0 : string) (ls : list string),
        collect_avif_files E (dir args) = Ok files ->
        files <> [] ->
        upload_files E (slice files None (Some (batch_size args))) (album args)
          (headful args) (t ++ [EvPrint (found_line files)]) = (Ok (l0 :: ls), t1) ->
        main E args t
        = (Ok tt,
           t1 ++ EvPrint "Upload produced the following link(s):"
              :: map (fun l => EvPrint (" - " +:+ l)) (l0 :: ls)
              ++ [EvSystem (open_command cmd l0)]))
     /\ (forall (files : list string) (i : Z) (rest : list Z) (all_links : list string)
           (t t1 : trace) (l0 : string) (ls : list string),
           upload_files E (slice files (Some i) (Some (i + batch_size args)))
             (if i =? 0 then album args else None) (headful args)
             (t ++ [EvPrint (batch_line args files i)]) = (Ok (l0 :: ls), t1) ->
           fallback_from E args files (i :: rest) all_links t
           = fallback_from E args files rest (all_links ++ l0 :: ls)
               (t1 ++ [EvSystem (open_command cmd l0)])))
  /\ (truthy_opt_str (environ_get E "BROWSER") = false ->
      (forall (files : list string) (t t1 : trace) (l0 : string) (ls : list string),
         collect_avif_files E (dir args) = Ok files ->
         files <> [] ->
         upload_files E (slice files None (Some (batch_size args))) (album args)
           (headful args) (t ++ [EvPrint (found_line files)]) = (Ok (l0 :: ls), t1) ->
         main E args t
         = (Ok tt,
            t1 ++ EvPrint "Upload produced the following link(s):"
               :: map (fun l => EvPrint (" - " +:+ l)) (l0 :: ls)
               ++ [EvPrint BROWSER_HINT_LINE])
         /\ system_calls (main E args t).2 = system_calls t1)
      /\ (forall (files : list string) (i : Z) (rest : list Z) (all_links : list string)
            (t t1 : trace) (l0 : string) (ls : list string),
            upload_files E (slice files (Some i) (Some (i + batch_size args)))
              (if i =? 0 then album args else None) (headful args)
              (t ++ [EvPrint (batch_line args files i)]) = (Ok (l0 :: ls), t1) ->
            fallback_from E args files (i :: rest) all_links t
            = fallback_from E args files rest (all_links ++ l0 :: ls)
                (t1 ++ [EvPrint BROWSER_HINT_LINE]))
      /\ (forall (links : list string) (t : trace),
            exists t', open_first E args links t = (Ok tt, t')
                       /\ system_calls t' = system_calls t)).
Proof.
  intros Hopen. split.
  - intros cmd Hget Hcmd. split.
    + intros files t t1 l0 ls Hfiles Hne Hup.
      rewrite (main_opens_after_links E args files t t1 l0 ls Hopen Hfiles Hne Hup).
      rewrite (open_in_host_browser_set E cmd l0 _ Hget Hcmd).
      rewrite <- app_assoc. reflexivity.
    + intros files i rest all_links t t1 l0 ls Hup.
      apply (fallback_turn_opens E args files i rest all_links t t1 _ l0 ls Hopen Hup).
      apply open_in_host_browser_set; assumption.
  - intros Hunset. split; [|split].
    + intros files t t1 l0 ls Hfiles Hne Hup.
      rewrite (main_opens_after_links E args files t t1 l0 ls Hopen Hfiles Hne Hup).
      rewrite (open_in_host_browser_unset E l0 _ Hunset).
      split; [rewrite <- app_assoc; reflexivity|].
      cbn [snd].
      change (EvPrint "Upload produced the following link(s):"
              :: map (fun l => EvPrint (" - " +:+ l)) (l0 :: ls))
        with ([EvPrint "Upload produced the following link(s):"]
              ++ map (fun l => EvPrint (" - " +:+ l)) (l0 :: ls)).
      rewrite !system_calls_app, system_calls_link_lines. simpl.
      rewrite !app_nil_r. reflexivity.
    + intros files i rest all_links t t1 l0 ls Hup.
      apply (fallback_turn_opens E args files i rest all_links t t1 _ l0 ls Hopen Hup).
      apply open_in_host_browser_unset. exact Hunset.
    + intros links t. unfold open_first. destruct links as [|l0 ls].
      * exists t. split; reflexivity.
      * rewrite Hopen. cbn [when]. rewrite (open_in_host_browser_unset E l0 t Hunset).
        eexists. split; [reflexivity|].
        rewrite system_calls_app. simpl. apply app_nil_r.
Qed.

Lemma open_runs_BROWSER_on_first_link_witness :
  system_calls (main (linked_env (Some "xdg-open")) (sample_args "imgs" None true 2) []).2
  = [open_command "xdg-open" "https://postimg.cc/abc"]
  /\ last (main (linked_env None) (sample_args "imgs" None true 2) []).2
     = Some (EvPrint BROWSER_HINT_LINE).
Proof.
  pose (files := ["imgs/b.avif"; "imgs/c.avif"; "imgs/sub/a.avif"]).
  split.
  - set (E := linked_env (Some "xdg-open")).
    set (args := sample_args "imgs" None true 2).
    destruct (open_runs_BROWSER_on_first_link E args eq_refl) as [Hset _].
    destruct (Hset "xdg-open" eq_refl eq_refl) as [Hinitial _].
    rewrite (Hinitial files []
               (upload_files E (slice files None (Some 2)) None false
                  [EvPrint (found_line files)]).2
               "https://postimg.cc/abc" []).
    + vm_compute. reflexivity.
    + vm_compute. reflexivity.
    + discriminate.
    + vm_compute. reflexivity.
  - set (E := linked_env None).
    set (args := sample_args "imgs" None true 2).
    destruct (open_runs_BROWSER_on_first_link E args eq_refl) as [_ Hunset].
    destruct (Hunset eq_refl) as [Hinitial _].
    destruct (Hinitial files []
                (upload_files E (slice files None (Some 2)) None false
                   [EvPrint (found_line files)]).2
                "https://postimg.cc/abc" []) as [Hrun _].
    + vm_compute. reflexivity.
    + discriminate.
    + vm_compute. reflexivity.
    + rewrite Hrun. vm_compute. reflexivity.
Defined.

(** C8, as stated, fails: with --open given and a link produced, but
    $BROWSER unset, the script hands nothing to [os.system]. *)
Lemma open_without_BROWSER_opens_nothing :
  ~ (forall (E : Env) (args : Args) (files : list string) (t1 : trace)
       (l0 : string) (ls : list string),
       open args = true ->
       collect_avif_files E (dir args) = Ok files ->
       files <> [] ->
       upload_files E (slice files None (Some (batch_size args))) (album args)
         (headful args) [EvPrint (found_line files)] = (Ok (l0 :: ls), t1) ->
       exists cmd : string, open_command cmd l0 ∈ system_calls (main E args []).2).
Proof.
  intros Hclaim.
  destruct (Hclaim (linked_env None) (sample_args "imgs" None true 2)
              ["imgs/b.avif"; "imgs/c.avif"; "imgs/sub/a.avif"]
              (upload_files (linked_env None) ["imgs/b.avif"; "imgs/c.avif"] None false
                 [EvPrint "Found 3 .avif files."]).2
              "https://postimg.cc/abc" [])
    as [cmd Hin].
  - reflexivity.
  - vm_compute. reflexivity.
  - discriminate.
  - vm_compute. reflexivity.
  - vm_compute in Hin. inversion Hin.
Qed.

(** ** Exceptions of the page lookups *)

Lemma swallows_ret {A} (a : A) : swallows (ret a).
Proof. intros t e t' H. discriminate. Qed.

Lemma swallows_bind {A B} (m : M A) (k : A -> M B) :
  swallows m -> (forall a, swallows (k a)) -> swallows (bind m k).
Proof.
  intros Hm Hk t e t' H. apply bind_inv in H as [(a & t1 & _ & H)|(e' & H & [= ->])].
  - exact (Hk a _ _ _ H).
  - exact (Hm _ _ _ H).
Qed.

Lemma swallows_try_except {A} (body handler : M A) :
  swallows handler -> swallows (try_except body handler).
Proof.
  intros Hh t e t'. unfold try_except.
  destruct (body t) as [[a|e0] t1]; [discriminate|].
  destruct (is_Exception e0) eqn:He0.
  - apply Hh.
  - intros [= <- <-]. exact He0.
Qed.

(** No exception that [except Exception] catches leaves
    [find_file_input], whatever the page answers. *)
Lemma find_file_input_swallows (E : Env) : swallows (find_file_input E).
Proof.
  unfold find_file_input. induction FILE_INPUT_SELECTORS as [|sel rest IH]; simpl.
  - apply swallows_ret.
  - apply swallows_bind; [apply swallows_try_except, swallows_ret|].
    intros [el|]; [apply swallows_ret|exact IH].
Qed.

Lemma click_upload_swallows (E : Env) : swallows (click_upload E).
Proof.
  unfold click_upload. induction UPLOAD_BUTTON_SELECTORS as [|sel rest IH]; simpl.
  - apply swallows_try_except, swallows_ret.
  - apply swallows_bind; [apply swallows_try_except, swallows_ret|].
    intros [|]; [apply swallows_ret|exact IH].
Qed.

Lemma fill_album_title_from_swallows (E : Env) (sels : list string) (title : string) :
  swallows (fill_album_title_from E sels title).
Proof.
  induction sels as [|sel rest IH]; simpl.
  - apply swallows_ret.
  - apply swallows_bind; [apply swallows_try_except, swallows_ret|].
    intros [|]; [apply swallows_ret|exact IH].
Qed.

Lemma fill_album_title_swallows (E : Env) (album_title : option string) (cond : bool) :
  swallows (fill_album_title E album_title cond).
Proof.
  unfold fill_album_title. destruct album_title as [title|]; [|apply swallows_ret].
  unfold when. destruct (truthy_str title && cond); [|apply swallows_ret].
  apply fill_album_title_from_swallows.
Qed.

Lemma scan_anchors_swallows (E : Env) (anchors : list Elem) (found : gset string) :
  swallows (scan_anchors E anchors found).
Proof.
  revert found. induction anchors as [|a rest IH]; intros found; simpl.
  - apply swallows_ret.
  - apply swallows_bind; [apply swallows_try_except, swallows_ret|].
    intros found1. apply IH.
Qed.

(** C4 at its failing input: the anchor query of [collect_result_links]
    stands outside any [try], so when it raises, the exception leaves
    [collect_result_links] and then [upload_files], whose browser is
    never closed. *)
Lemma collect_result_links_propagates_lookup_failure :
  is_Exception closed_page_error = true
  /\ collect_result_links broken_env 120000 []
     = (Raise closed_page_error, [EvQuerySelectorAll RESULT_ANCHORS_SELECTOR])
  /\ (upload_files broken_env ["imgs/b.avif"] None false []).1 = Raise closed_page_error
  /\ EvClose ∉ (upload_files broken_env ["imgs/b.avif"] None false []).2.
Proof.
  split; [reflexivity|]. split; [vm_compute; reflexivity|].
  split; [vm_compute; reflexivity|].
  intros Hin. vm_compute in Hin.
  repeat (apply elem_of_cons in Hin as [Hin|Hin]; [discriminate|]).
  inversion Hin.
Qed.

(** ** The polling loop *)

(** The [while] loop, one turn unfolded. *)
Lemma collect_loop_turn (E : Env) (timeout_ms elapsed : Z) (found : gset string)
    (t : trace) :
  collect_loop E timeout_ms elapsed found t
  = if decide (elapsed < timeout_ms) then
      match poll_round E found t with
      | (Raise e, t1) => (Raise e, t1)
      | (Ok (Return links), t1) => (Ok links, t1)
      | (Ok (Continue found1), t1) =>
          match wait_for_timeout E 2000 t1 with
          | (Raise e, t2) => (Raise e, t2)
          | (Ok _, t2) => collect_loop E timeout_ms (elapsed + 2000) found1 t2
          end
      end
    else (Ok (elements found), t).
Proof.
  rewrite collect_loop_unfold_eq. unfold collect_loop_unfold.
  destruct (decide (elapsed < timeout_ms)) as [Hlt|Hge]; simpl; [|reflexivity].
  destruct (poll_round E found t) as [[[links|found1]|e] t1]; simpl; try reflexivity.
  unfold wait_for_timeout, perform.
  destruct (page_wait_for_timeout E t1 2000); reflexivity.
Qed.

Lemma settle_continue (E : Env) (found found' : gset string) (t t' : trace) :
  settle E found t = (Ok (Continue found'), t') -> found' = ∅ /\ t' = t.
Proof.
  unfold settle. destruct (bool_decide (found ≠ ∅)) eqn:Hne.
  - intros H. apply bind_Ok_inv in H as (u & t1 & _ & H). discriminate.
  - intros [= <- <-]. split; [|reflexivity].
    apply bool_decide_eq_false in Hne.
    destruct (decide (found = ∅)) as [->|Hneq]; [reflexivity|contradiction].
Qed.

Lemma settle_return (E : Env) (found : gset string) (links : list string) (t t' : trace) :
  settle E found t = (Ok (Return links), t') -> links <> [].
Proof.
  unfold settle. destruct (bool_decide (found ≠ ∅)) eqn:Hne; [|discriminate].
  intros H. apply bind_Ok_inv in H as (u & t1 & _ & [= <- <-]).
  apply bool_decide_eq_true in Hne. intros Hnil. apply Hne.
  apply elements_empty_iff in Hnil. apply leibniz_equiv, Hnil.
Qed.

(** A round that goes on polling has found nothing and has only looked
    the page up. *)
Lemma poll_round_continue (E : Env) (found found' : gset string) (t t' : trace) :
  poll_round E found t = (Ok (Continue found'), t') ->
  found' = ∅ /\ exists evs, t' = t ++ evs /\ Forall is_lookup evs.
Proof.
  unfold poll_round. intros H.
  apply bind_Ok_inv in H as (anchors & t1 & H1 & H).
  apply bind_Ok_inv in H as (found1 & t2 & H2 & H).
  apply bind_Ok_inv in H as (album_anchor & t3 & H3 & H).
  unfold query_selector_all, perform in H1. injection H1 as _ <-.
  destruct (scan_anchors_lookups E _ _ _ _ _ H2) as (evs2 & -> & Hevs2).
  unfold query_selector, perform in H3. injection H3 as _ <-.
  assert (Hbase : Forall is_lookup
            ([EvQuerySelectorAll RESULT_ANCHORS_SELECTOR] ++ evs2
             ++ [EvQuerySelector ALBUM_ANCHOR_SELECTOR])).
  { apply Forall_app_2; [repeat constructor|].
    apply Forall_app_2; [exact Hevs2|repeat constructor]. }
  destruct album_anchor as [a|].
  - apply bind_Ok_inv in H as (href & t4 & H4 & H).
    unfold get_attribute, perform in H4. injection H4 as _ <-.
    assert (Hsettle : settle E found1
              ((((t ++ [EvQuerySelectorAll RESULT_ANCHORS_SELECTOR]) ++ evs2)
                ++ [EvQuerySelector ALBUM_ANCHOR_SELECTOR]) ++ [EvGetAttribute a "href"])
            = (Ok (Continue found'), t')).
    { destruct href as [h|]; [|exact H].
      destruct (truthy_str h); [discriminate|exact H]. }
    apply settle_continue in Hsettle as [-> ->]. split; [reflexivity|].
    eexists. rewrite <- !app_assoc. split; [reflexivity|].
    rewrite !app_assoc. apply Forall_app_2; [|repeat constructor].
    rewrite <- !app_assoc. exact Hbase.
  - apply settle_continue in H as [-> ->]. split; [reflexivity|].
    eexists. rewrite <- !app_assoc. split; [reflexivity|exact Hbase].
Qed.

(** A round that returns, returns at least one link. *)
Lemma poll_round_return_nonempty (E : Env) (found : gset string) (links : list string)
    (t t' : trace) :
  poll_round E found t = (Ok (Return links), t') -> links <> [].
Proof.
  unfold poll_round. intros H.
  apply bind_Ok_inv in H as (anchors & t1 & _ & H).
  apply bind_Ok_inv in H as (found1 & t2 & _ & H).
  apply bind_Ok_inv in H as (album_anchor & t3 & _ & H).
  destruct album_anchor as [a|]; [|eapply settle_return; eassumption].
  apply bind_Ok_inv in H as (href & t4 & _ & H).
  destruct href as [h|]; [|eapply settle_return; eassumption].
  destruct (truthy_str h); [|eapply settle_return; eassumption].
  injection H as <- <-. intros Hnil. apply elements_empty_iff in Hnil.
  assert (Hin : h ∈ ({[h]} ∪ found1 : gset string)) by set_solver.
  rewrite Hnil in Hin. set_solver.
Qed.

Lemma poll_rounds_bounds (timeout_ms : Z) :
  timeout_ms <= 2000 * Z.of_nat (poll_rounds timeout_ms)
  /\ (0 < timeout_ms -> 2000 * (Z.of_nat (poll_rounds timeout_ms) - 1) < timeout_ms)
  /\ (timeout_ms <= 0 -> poll_rounds timeout_ms = 0%nat).
Proof.
  unfold poll_rounds.
  pose proof (Z.div_mod (timeout_ms + 1999) 2000 ltac:(lia)) as Hdm.
  pose proof (Z.mod_pos_bound (timeout_ms + 1999) 2000 ltac:(lia)) as Hmod.
  repeat split; intros; lia.
Qed.

(** [n] idle rounds take the loop [n] turns further, while its test holds. *)
Lemma collect_loop_idle (E : Env) (timeout_ms : Z) (n : nat) (t t' : trace) :
  idle_rounds E n t t' ->
  forall elapsed : Z,
    (n <> 0%nat -> elapsed + 2000 * (Z.of_nat n - 1) < timeout_ms) ->
    collect_loop E timeout_ms elapsed ∅ t
    = collect_loop E timeout_ms (elapsed + 2000 * Z.of_nat n) ∅ t'.
Proof.
  induction 1 as [t|n t t1 t2 t3 found Hpoll Hwait Hrest IH]; intros elapsed Hlt.
  - f_equal. lia.
  - rewrite collect_loop_turn.
    destruct (decide (elapsed < timeout_ms)) as [_|Hge]; [|lia].
    rewrite Hpoll, Hwait.
    apply poll_round_continue in Hpoll as [-> _].
    rewrite (IH (elapsed + 2000)) by lia. f_equal. lia.
Qed.

Lemma idle_rounds_waits (E : Env) (n : nat) (t t' : trace) :
  idle_rounds E n t t' ->
  exists evs,
    t' = t ++ evs
    /\ Forall (fun ev => is_lookup ev \/ is_poll_wait ev) evs
    /\ length (filter is_poll_wait evs) = n.
Proof.
  induction 1 as [t|n t t1 t2 t3 found Hpoll Hwait Hrest IH].
  - exists []. rewrite app_nil_r. repeat split. constructor.
  - apply poll_round_continue in Hpoll as (_ & evs1 & -> & Hevs1).
    unfold wait_for_timeout, perform in Hwait. injection Hwait as _ <-.
    destruct IH as (evs3 & -> & Hevs3 & Hcount).
    exists (evs1 ++ [EvWaitForTimeout 2000] ++ evs3).
    rewrite <- !app_assoc. split; [reflexivity|]. split.
    + apply Forall_app_2; [eapply Forall_impl; [exact Hevs1|tauto]|].
      apply Forall_app_2; [repeat constructor; right; reflexivity|exact Hevs3].
    + rewrite !filter_app, !length_app, Hcount.
      assert (Hnone : filter is_poll_wait evs1 = []).
      { clear -Hevs1. induction Hevs1 as [|ev evs Hev _ IH]; [reflexivity|].
        rewrite filter_cons. destruct (decide (is_poll_wait ev)) as [Hw|_]; [|exact IH].
        unfold is_poll_wait in Hw. subst ev. contradiction. }
      rewrite Hnone. reflexivity.
Qed.

(** C5. [collect_result_links] polls the page in rounds 2000 ms apart.
    When as many rounds as fit the timeout go by without a link (each
    finds nothing and is followed by one wait of 2000 ms), it returns the
    empty list and raises nothing.  When an earlier round finds links, it
    returns those links, at least one, at once.  A run of n rounds without
    links consists of lookups of the page and of exactly n waits. *)
Theorem collect_result_links_polls_until_timeout (E : Env) (timeout_ms : Z) (t : trace) :
  (forall t' : trace,
     idle_rounds E (poll_rounds timeout_ms) t t' ->
     collect_result_links E timeout_ms t = (Ok [], t'))
  /\ (forall (k : nat) (t1 t2 : trace) (links : list string),
        (k < poll_rounds timeout_ms)%nat ->
        idle_rounds E k t t1 ->
        poll_round E ∅ t1 = (Ok (Return links), t2) ->
        collect_result_links E timeout_ms t = (Ok links, t2) /\ links <> [])
  /\ (forall (n : nat) (t' : trace),
        idle_rounds E n t t' ->
        exists evs,
          t' = t ++ evs
          /\ Forall (fun ev => is_lookup ev \/ is_poll_wait ev) evs
          /\ length (filter is_poll_wait evs) = n).
Proof.
  destruct (poll_rounds_bounds timeout_ms) as (Hup & Hlow & Hzero).
  split; [|split].
  - intros t' Hidle. unfold collect_result_links.
    rewrite (collect_loop_idle E timeout_ms _ t t' Hidle 0).
    + rewrite collect_loop_turn.
      destruct (decide (0 + 2000 * Z.of_nat (poll_rounds timeout_ms) < timeout_ms));
        [lia|].
      rewrite elements_empty. reflexivity.
    + intros Hn. destruct (decide (0 < timeout_ms)); [|rewrite Hzero in Hn; lia].
      specialize (Hlow ltac:(assumption)). lia.
  - intros k t1 t2 links Hk Hidle Hpoll. split.
    + unfold collect_result_links.
      assert (Hpos : 0 < timeout_ms).
      { destruct (decide (0 < timeout_ms)); [assumption|]. rewrite Hzero in Hk; lia. }
      specialize (Hlow Hpos).
      rewrite (collect_loop_idle E timeout_ms _ t t1 Hidle 0) by lia.
      rewrite collect_loop_turn.
      destruct (decide (0 + 2000 * Z.of_nat k < timeout_ms)); [|lia].
      rewrite Hpoll. reflexivity.
    + eapply poll_round_return_nonempty. eassumption.
  - intros n t' Hidle. eapply idle_rounds_waits. eassumption.
Qed.

Lemma collect_result_links_polls_until_timeout_witness :
  collect_result_links blank_env 4000 []
  = (Ok [],
     [ EvQuerySelectorAll RESULT_ANCHORS_SELECTOR; EvQuerySelector ALBUM_ANCHOR_SELECTOR;
       EvWaitForTimeout 2000;
       EvQuerySelectorAll RESULT_ANCHORS_SELECTOR; EvQuerySelector ALBUM_ANCHOR_SELECTOR;
       EvWaitForTimeout 2000 ])
  /\ collect_result_links slow_env 4000 []
     = (Ok ["https://postimg.cc/late"],
        [ EvQuerySelectorAll RESULT_ANCHORS_SELECTOR;
          EvQuerySelector ALBUM_ANCHOR_SELECTOR; EvWaitForTimeout 2000;
          EvQuerySelectorAll RESULT_ANCHORS_SELECTOR; EvGetAttribute 1%nat "href";
          EvQuerySelector ALBUM_ANCHOR_SELECTOR; EvWaitForTimeout 2000 ]).
Proof.
  split.
  - destruct (collect_result_links_polls_until_timeout blank_env 4000 []) as (Htimeout & _ & _).
    apply Htimeout. change (poll_rounds 4000) with 2%nat.
    eapply idle_more; [vm_compute; reflexivity|vm_compute; reflexivity|].
    eapply idle_more; [vm_compute; reflexivity|vm_compute; reflexivity|].
    apply idle_done.
  - destruct (collect_result_links_polls_until_timeout slow_env 4000 []) as (_ & Hfound & _).
    apply (Hfound 1%nat
             [ EvQuerySelectorAll RESULT_ANCHORS_SELECTOR;
               EvQuerySelector ALBUM_ANCHOR_SELECTOR; EvWaitForTimeout 2000 ]).
    + vm_compute. lia.
    + eapply idle_more; [vm_compute; reflexivity|vm_compute; reflexivity|].
      apply idle_done.
    + vm_compute. reflexivity.
Defined.

(** ** File discovery *)






(** The order of [sorted] is transitive. *)
Lemma string_leb_trans (a b c : string) :
  String.leb a b = true -> String.leb b c = true -> String.leb a c = true.
Proof.
  unfold String.leb. revert b c. induction a as [|x a IH]; intros [|y b] [|z c];
    simpl; try reflexivity; try discriminate.
  unfold Ascii.compare.
  destruct (N.compare_spec (N_of_ascii x) (N_of_ascii y)) as [Hxy|Hxy|Hxy];
    destruct (N.compare_spec (N_of_ascii y) (N_of_ascii z)) as [Hyz|Hyz|Hyz];
    destruct (N.compare_spec (N_of_ascii x) (N_of_ascii z)) as [Hxz|Hxz|Hxz];
    try reflexivity; try discriminate; try lia.
  apply IH.
Qed.

Lemma sorted_StronglySorted (l : list string) :
  StronglySorted (fun a b => String.leb a b = true) (sorted l).
Proof.
  apply StringSort.StronglySorted_sort.
  intros a b c. apply string_leb_trans.
Qed.

Lemma sorted_Permutation (l : list string) : Permutation (sorted l) l.
Proof. symmetry. apply StringSort.Permuted_sort. Qed.




(** ** Further properties of main *)

Lemma main_no_files_run (E : Env) (args : Args) (t : trace) :
  collect_avif_files E (dir args) = Ok [] ->
  main E args t = (Ok tt, t ++ [EvPrint ("No .avif files found under " +:+ dir args)]).
Proof. intros Hfiles. unfold main. rewrite Hfiles. reflexivity. Qed.



Lemma main_links_run (E : Env) (args : Args) (files : list string)
    (t t1 t' : trace) (r : Res unit) (l0 : string) (ls : list string) :
  collect_avif_files E (dir args) = Ok files ->
  files <> [] ->
  upload_files E (slice files None (Some (batch_size args))) (album args) (headful args)
    (t ++ [EvPrint (found_line files)]) = (Ok (l0 :: ls), t1) ->
  main E args t = (r, t') ->
  r = Ok tt
  /\ upload_attempts t'
     = upload_attempts t
       ++ [(slice files None (Some (batch_size args)), album args, headful args)].
Proof.
  intros Hfiles Hne Hup Hmain. unfold main in Hmain. rewrite Hfiles in Hmain.
  rewrite (bind_Ok _ _ t t files eq_refl) in Hmain.
  rewrite (truthy_list_nonempty files Hne) in Hmain. cbn [negb] in Hmain.
  rewrite (bind_Ok _ _ t (t ++ [EvPrint (found_line files)]) tt eq_refl) in Hmain.
  rewrite (bind_Ok _ _ _ _ _ Hup) in Hmain. cbn [truthy_list] in Hmain.
  rewrite (bind_Ok _ _ t1 (t1 ++ [EvPrint "Upload produced the following link(s):"])
             tt eq_refl) in Hmain.
  rewrite (bind_Ok _ _ _ _ _ (print_links_run (l0 :: ls) _)) in Hmain.
  assert (Hatt1 : upload_attempts t1
                  = upload_attempts t
                    ++ [(slice files None (Some (batch_size args)), album args, headful args)]).
  { rewrite (upload_files_attempt _ _ _ _ _ _ _ Hup), upload_attempts_app.
    simpl. rewrite app_nil_r. reflexivity. }
  assert (Hopen : exists t2, open_first E args (l0 :: ls)
                    ((t1 ++ [EvPrint "Upload produced the following link(s):"])
                     ++ map (fun l => EvPrint (" - " +:+ l)) (l0 :: ls)) = (Ok tt, t2)).
  { unfold open_first, when, open_in_host_browser.
    destruct (open args); [|eexists; reflexivity].
    destruct (negb _); eexists; reflexivity. }
  destruct Hopen as (t2 & Hopen). rewrite Hopen in Hmain. injection Hmain as <- <-.
  split; [reflexivity|].
  rewrite (emits_attempts _ _ _ _ (open_first_no_attempt E args _) Hopen).
  rewrite !upload_attempts_app, Hatt1.
  rewrite (upload_attempts_none (map _ _)).
  - simpl. rewrite !app_nil_r. reflexivity.
  - apply Forall_forall. intros ev Hev. apply list_elem_of_fmap in Hev as (l & -> & _).
    reflexivity.
Qed.

(** When the initial attempt produces links, it is the only attempt:
    [main] returns after it, and the files beyond the first batch_size
    are never handed to [upload_files]. *)
Theorem main_single_attempt_on_links (E : Env) (args : Args) (files : list string)
    (t t1 t' : trace) (r : Res unit) (l0 : string) (ls : list string) :
  collect_avif_files E (dir args) = Ok files ->
  files <> [] ->
  upload_files E (slice files None (Some (batch_size args))) (album args) (headful args)
    (t ++ [EvPrint (found_line files)]) = (Ok (l0 :: ls), t1) ->
  main E args t = (r, t') ->
  r = Ok tt
  /\ upload_attempts t'
     = upload_attempts t
       ++ [(slice files None (Some (batch_size args)), album args, headful args)].
Proof. apply main_links_run. Qed.

Lemma main_single_attempt_on_links_witness :
  upload_attempts (main (linked_env None) (sample_args "imgs" None false 2) []).2
  = [(["imgs/b.avif"; "imgs/c.avif"], None, false)].
Proof.
  set (E := linked_env None). set (args := sample_args "imgs" None false 2).
  pose (files := ["imgs/b.avif"; "imgs/c.avif"; "imgs/sub/a.avif"]).
  destruct (main_single_attempt_on_links E args files []
              (upload_files E (slice files None (Some 2)) None false
                 [EvPrint (found_line files)]).2
              (main E args []).2 (main E args []).1 "https://postimg.cc/abc" [])
    as [_ Hatt].
  - vm_compute. reflexivity.
  - discriminate.
  - vm_compute. reflexivity.
  - vm_compute. reflexivity.
  - rewrite Hatt. vm_compute. reflexivity.
Defined.

(** A batch size of zero: the initial attempt is over no file at all,
    and when it yields no link [main] ends with the ValueError of
    [range], before any batch. *)
Theorem main_batch_size_zero (E : Env) (args : Args) (files : list string)
    (t t1 : trace) :
  collect_avif_files E (dir args) = Ok files ->
  files <> [] ->
  batch_size args = 0 ->
  upload_files E [] (album args) (headful args) (t ++ [EvPrint (found_line files)])
  = (Ok [], t1) ->
  main E args t = (Raise ZERO_STEP_ERROR, t1 ++ [EvPrint FALLBACK_LINE]).
Proof.
  intros Hfiles Hne Hbs Hup.
  rewrite (main_after_empty_initial_attempt E args files t t1 Hfiles Hne).
  - rewrite Hbs. reflexivity.
  - rewrite Hbs. unfold slice, clamp_index. simpl.
    rewrite Z.min_l by (unfold len; lia). exact Hup.
Qed.

Lemma main_batch_size_zero_witness :
  (main blank_env (sample_args "imgs" None false 0) []).1 = Raise ZERO_STEP_ERROR.
Proof.
  set (args := sample_args "imgs" None false 0).
  pose (files := ["imgs/b.avif"; "imgs/c.avif"; "imgs/sub/a.avif"]).
  rewrite (main_batch_size_zero blank_env args files []
             (upload_files blank_env [] None false [EvPrint (found_line files)]).2).
  - reflexivity.
  - vm_compute. reflexivity.
  - discriminate.
  - reflexivity.
  - vm_compute. reflexivity.
Defined.

Lemma slice_prefix_negative {A} (l : list A) (bs : Z) :
  bs < 0 -> slice l None (Some bs) = take (length l - Z.to_nat (- bs)) l.
Proof.
  intros Hbs. unfold slice, clamp_index. simpl.
  destruct (decide (bs < 0)); [|lia]. change (Z.to_nat 0) with 0%nat.
  rewrite drop_0. f_equal. unfold len. lia.
Qed.

(** A negative batch size: the initial attempt leaves out the last
    files, as many as the size says, and when it yields no link the
    fallback loop makes no attempt at all. *)
Theorem main_batch_size_negative (E : Env) (args : Args) (files : list string)
    (t t1 : trace) :
  collect_avif_files E (dir args) = Ok files ->
  files <> [] ->
  batch_size args < 0 ->
  upload_files E (take (length files - Z.to_nat (- batch_size args)) files)
    (album args) (headful args) (t ++ [EvPrint (found_line files)]) = (Ok [], t1) ->
  main E args t = (Ok tt, t1 ++ [EvPrint FALLBACK_LINE; EvPrint NO_LINKS_LINE]).
Proof.
  intros Hfiles Hne Hbs Hup.
  rewrite (main_after_empty_initial_attempt E args files t t1 Hfiles Hne).
  - unfold range. destruct (decide (0 < batch_size args)); [lia|].
    destruct (decide (batch_size args < 0)); [|lia].
    rewrite range_down_from_zero by (unfold len; lia).
    cbv [bind lift fallback_from ret truthy_list print emit].
    rewrite <- app_assoc. reflexivity.
  - rewrite slice_prefix_negative by assumption. exact Hup.
Qed.

Lemma main_batch_size_negative_witness :
  upload_attempts (main blank_env (sample_args "imgs" None false (-1)) []).2
  = [(["imgs/b.avif"; "imgs/c.avif"], None, false)].
Proof.
  set (args := sample_args "imgs" None false (-1)).
  pose (files := ["imgs/b.avif"; "imgs/c.avif"; "imgs/sub/a.avif"]).
  rewrite (main_batch_size_negative blank_env args files []
             (upload_files blank_env ["imgs/b.avif"; "imgs/c.avif"] None false
                [EvPrint (found_line files)]).2).
  - vm_compute. reflexivity.
  - vm_compute. reflexivity.
  - discriminate.
  - reflexivity.
  - vm_compute. reflexivity.
Defined.

Lemma fallback_from_first_attempt (E : Env) (args : Args) (files : list string)
    (i : Z) (rest : list Z) (all_links : list string) (t t' : trace)
    (r : Res (list string)) :
  fallback_from E args files (i :: rest) all_links t = (r, t') ->
  exists more,
    upload_attempts t'
    = upload_attempts t
      ++ (batch_of files (batch_size args) i, if i =? 0 then album args else None,
          headful args) :: more.
Proof.
  intros Hrun. cbn [fallback_from] in Hrun.
  apply bind_inv in Hrun as [(u & t1 & Hprint & Hrun)|(e & Hprint & _)]; [|discriminate].
  pose proof (emits_attempts _ _ _ _ (print_no_attempt _) Hprint) as Hat1.
  apply bind_inv in Hrun as [(links & t2 & Hup & Hrun)|(e & Hup & ->)].
  - pose proof (upload_files_attempt _ _ _ _ _ _ _ Hup) as Hat2.
    apply bind_inv in Hrun as [(u' & t3 & Hopen & Hrun)|(e & Hopen & ->)].
    + pose proof (emits_attempts _ _ _ _ (open_first_no_attempt _ _ _) Hopen) as Hat3.
      destruct (fallback_from_attempts E _ _ _ _ _ _ _ Hrun) as (k & Hk & _).
      eexists. rewrite Hk, Hat3, Hat2, Hat1, <- app_assoc. reflexivity.
    + pose proof (emits_attempts _ _ _ _ (open_first_no_attempt _ _ _) Hopen) as Hat3.
      exists []. rewrite Hat3, Hat2, Hat1. reflexivity.
  - pose proof (upload_files_attempt _ _ _ _ _ _ _ Hup) as Hat2.
    exists []. rewrite Hat2, Hat1. reflexivity.
Qed.

Lemma batch_of_zero (files : list string) (bs : Z) :
  0 < bs -> batch_of files bs 0 = take (Z.to_nat bs) files.
Proof.
  intros Hbs. unfold batch_of. rewrite slice_window by lia.
  change (Z.to_nat 0) with 0%nat. rewrite drop_0.
  destruct (decide (bs <= len files)).
  - rewrite Z.min_l by lia. reflexivity.
  - rewrite Z.min_r by lia. unfold len. rewrite Nat2Z.id, firstn_all.
    rewrite take_ge; [reflexivity|unfold len in *; lia].
Qed.

(** The fallback starts over: when the initial attempt yields no link
    and batch_size is positive, the first batch of the fallback loop is
    the very call of the initial attempt, with the same files, the same
    album title and the same mode. *)
Theorem fallback_repeats_initial_attempt (E : Env) (args : Args) (files : list string)
    (t t1 t' : trace) (r : Res unit) :
  collect_avif_files E (dir args) = Ok files ->
  files <> [] ->
  0 < batch_size args ->
  upload_files E (slice files None (Some (batch_size args))) (album args) (headful args)
    (t ++ [EvPrint (found_line files)]) = (Ok [], t1) ->
  main E args t = (r, t') ->
  exists more,
    upload_attempts t'
    = upload_attempts t
      ++ (take (Z.to_nat (batch_size args)) files, album args, headful args)
      :: (take (Z.to_nat (batch_size args)) files, album args, headful args)
      :: more.
Proof.
  intros Hfiles Hne Hbs Hup Hmain.
  pose proof (upload_files_attempt _ _ _ _ _ _ _ Hup) as Hat1.
  rewrite upload_attempts_app in Hat1. simpl in Hat1. rewrite app_nil_r in Hat1.
  rewrite slice_prefix in Hat1 by assumption.
  rewrite (main_after_empty_initial_attempt E args files t t1 Hfiles Hne Hup) in Hmain.
  assert (Hrange : exists rest, range 0 (len files) (batch_size args) = Ok (0 :: rest)).
  { unfold range. destruct (decide (0 < batch_size args)) as [Hpos|]; [|lia].
    simp range_up. destruct (decide (0 < len files)) as [Hpos'|Hlen].
    - simpl. eauto.
    - destruct files; [contradiction|]. unfold len in Hlen. simpl in Hlen. lia. }
  destruct Hrange as (rest & Hrange). rewrite Hrange in Hmain.
  rewrite bind_unfold in Hmain. unfold lift at 1 in Hmain. cbv iota beta in Hmain.
  assert (Hfirst : forall r0 t2,
            fallback_from E args files (0 :: rest) []
              (t1 ++ [EvPrint "No album link found for single upload; falling back to batch uploads..."])
            = (r0, t2) ->
            exists more,
              upload_attempts t2
              = upload_attempts t1
                ++ (take (Z.to_nat (batch_size args)) files, album args, headful args)
                :: more).
  { intros r0 t2 Hloop. apply fallback_from_first_attempt in Hloop as (more & Hloop).
    exists more. rewrite Hloop, upload_attempts_app. simpl. rewrite app_nil_r.
    rewrite batch_of_zero by assumption. reflexivity. }
  apply bind_inv in Hmain as [(all_links & t2 & Hloop & Hend)|(e & Hloop & ->)].
  - destruct (Hfirst _ _ Hloop) as (more & Hat2). exists more.
    assert (Hem : emits no_attempt
              (if truthy_list all_links
               then print "Collected links:" >> print_links all_links
               else print "No links produced. Run with --headful to watch and debug the upload process.")).
    { destruct (truthy_list all_links).
      - emits_step; [apply print_no_attempt|apply print_links_no_attempt].
      - apply print_no_attempt. }
    rewrite (emits_attempts _ _ _ _ Hem Hend), Hat2, Hat1, <- app_assoc. reflexivity.
  - destruct (Hfirst _ _ Hloop) as (more & Hat2). exists more.
    rewrite Hat2, Hat1, <- app_assoc. reflexivity.
Qed.

Lemma fallback_repeats_initial_attempt_witness :
  take 2 (upload_attempts (main blank_env (sample_args "imgs" (Some "Quiz") false 2) []).2)
  = [ (["imgs/b.avif"; "imgs/c.avif"], Some "Quiz", false);
      (["imgs/b.avif"; "imgs/c.avif"], Some "Quiz", false) ].
Proof.
  set (args := sample_args "imgs" (Some "Quiz") false 2).
  pose (files := ["imgs/b.avif"; "imgs/c.avif"; "imgs/sub/a.avif"]).
  destruct (fallback_repeats_initial_attempt blank_env args files []
              (upload_files blank_env (slice files None (Some 2)) (Some "Quiz") false
                 [EvPrint (found_line files)]).2
              (main blank_env args []).2 (main blank_env args []).1)
    as (more & Hatt).
  - vm_compute. reflexivity.
  - discriminate.
  - reflexivity.
  - vm_compute. reflexivity.
  - vm_compute. reflexivity.
  - rewrite Hatt. reflexivity.
Defined.

(** *** How main can fail *)





(** Every attempt that [main] makes, the initial one and every batch of
    the fallback loop, runs in the mode that --headful asks for, and
    carries either the album title of --album or none. *)
Theorem main_attempts_keep_mode (E : Env) (args : Args) (t t' : trace) (r : Res unit)
    (a : list string * option string * bool) :
  main E args t = (r, t') ->
  a ∈ drop (length (upload_attempts t)) (upload_attempts t') ->
  a.2 = headful args /\ (attempt_album a = album args \/ attempt_album a = None).
Proof.
  intros Hmain Ha.
  destruct (collect_avif_files E (dir args)) as [files|e] eqn:Hfiles.
  - destruct files as [|f files'].
    + rewrite (main_no_files_run E args t Hfiles) in Hmain. injection Hmain as _ <-.
      rewrite upload_attempts_app, drop_app_length in Ha. inversion Ha.
    + set (files := f :: files') in *.
      assert (Hne : files <> []) by discriminate.
      destruct (upload_files E (slice files None (Some (batch_size args))) (album args)
                  (headful args) (t ++ [EvPrint (found_line files)]))
        as [[links|e] t1] eqn:Hup.
      * pose proof (upload_files_attempt _ _ _ _ _ _ _ Hup) as Hat1.
        rewrite upload_attempts_app in Hat1. simpl in Hat1. rewrite app_nil_r in Hat1.
        destruct links as [|l0 ls].
        -- pose proof (main_fallback_attempts E args files t t1 t' r Hfiles Hne Hup Hmain)
             as Hatt.
           assert (Hall : exists k idxs,
                     upload_attempts t'
                     = upload_attempts t
                       ++ (slice files None (Some (batch_size args)), album args, headful args)
                       :: take k (planned_attempts args files idxs)).
           { destruct (range 0 (len files) (batch_size args)) as [idxs|e].
             - destruct Hatt as (k & Hk & _). exists k, idxs.
               rewrite Hk, Hat1, <- app_assoc. reflexivity.
             - destruct Hatt as (_ & Hsame). exists 0%nat, [].
               rewrite Hsame, Hat1. reflexivity. }
           destruct Hall as (k & idxs & Hall). rewrite Hall, drop_app_length in Ha.
           apply elem_of_cons in Ha as [->|Ha]; [simpl; auto|].
           apply elem_of_take in Ha as (j & Hj & _).
           apply list_elem_of_lookup_2 in Hj.
           unfold planned_attempts in Hj. apply list_elem_of_fmap in Hj as (i & -> & _).
           unfold attempt_album. simpl. split; [reflexivity|].
           destruct (i =? 0); auto.
        -- destruct (main_links_run E args files t t1 t' r l0 ls
                       Hfiles Hne Hup Hmain) as (_ & Hone).
           rewrite Hone, drop_app_length in Ha.
           apply list_elem_of_singleton in Ha. subst a. simpl. auto.
      * pose proof (upload_files_attempt _ _ _ _ _ _ _ Hup) as Hat1.
        rewrite upload_attempts_app in Hat1. simpl in Hat1. rewrite app_nil_r in Hat1.
        unfold main in Hmain. rewrite Hfiles in Hmain.
        rewrite (bind_Ok _ _ t t files eq_refl) in Hmain.
        rewrite (truthy_list_nonempty files Hne) in Hmain. cbn [negb] in Hmain.
        rewrite (bind_Ok _ _ t (t ++ [EvPrint (found_line files)]) tt eq_refl) in Hmain.
        rewrite (bind_Raise _ _ _ _ _ Hup) in Hmain. injection Hmain as _ <-.
        rewrite Hat1, drop_app_length in Ha.
        apply list_elem_of_singleton in Ha. subst a. simpl. auto.
  - unfold main in Hmain. rewrite Hfiles in Hmain. injection Hmain as _ <-.
    rewrite drop_all in Ha. inversion Ha.
Qed.

Lemma main_attempts_keep_mode_witness :
  map snd (upload_attempts
             (main blank_env
                {| dir := "imgs"; album := Some "Quiz"; headful := true;
                   open := false; batch_size := 2 |} []).2)
  = [true; true; true].
Proof.
  set (args := {| dir := "imgs"; album := Some "Quiz"; headful := true;
                  open := false; batch_size := 2 |}).
  destruct (main_attempts_keep_mode blank_env args [] (main blank_env args []).2
              (main blank_env args []).1 (["imgs/sub/a.avif"], None, true))
    as [_ _].
  - vm_compute. reflexivity.
  - vm_compute. do 2 apply list_elem_of_further. apply list_elem_of_here.
  - vm_compute. reflexivity.
Defined.

(** ** Further properties of the probing *)

Lemma find_file_input_from_first_match (E : Env) (sels : list string) (t t' : trace)
    (file_input : option Elem) (used_sel : option string) :
  find_file_input_from E sels t = (Ok (file_input, used_sel), t') ->
  (file_input = None /\ used_sel = None
   /\ t' = t ++ map EvQuerySelector sels
   /\ forall (j : nat) (sel' : string),
        sels !! j = Some sel' -> missed E (t ++ map EvQuerySelector (take j sels)) sel')
  \/ (exists (k : nat) (el : Elem) (sel : string),
        file_input = Some el /\ used_sel = Some sel
        /\ sels !! k = Some sel
        /\ t' = t ++ map EvQuerySelector (take (S k) sels)
        /\ page_query_selector E (t ++ map EvQuerySelector (take k sels)) sel = Ok (Some el)
        /\ forall (j : nat) (sel' : string),
             (j < k)%nat -> sels !! j = Some sel' ->
             missed E (t ++ map EvQuerySelector (take j sels)) sel').
Proof.
  revert t. induction sels as [|sel rest IH]; intros t Hrun; simpl in Hrun.
  - injection Hrun as <- <- <-. left. rewrite app_nil_r. repeat split.
    intros j sel' Hj. rewrite lookup_nil in Hj. discriminate.
  - apply bind_Ok_inv in Hrun as (el & t1 & Htry & Hrun).
    unfold try_except, query_selector, perform in Htry.
    destruct (page_query_selector E t sel) as [found|e] eqn:Hq.
    + injection Htry as <- <-. destruct found as [el|].
      * injection Hrun as <- <- <-. right. exists 0%nat, el, sel.
        simpl. rewrite app_nil_r. repeat split; try assumption.
        intros j sel' Hj. lia.
      * apply IH in Hrun. clear IH.
        assert (Hmiss : missed E t sel) by (left; exact Hq).
        destruct Hrun as [(-> & -> & -> & Hall)|(k & el & sel0 & -> & -> & Hk & -> & Hhit & Hall)].
        -- left. repeat split; [simpl; rewrite <- app_assoc; reflexivity|].
           intros [|j] sel' Hj; simpl in *.
           ++ injection Hj as <-. rewrite app_nil_r. exact Hmiss.
           ++ rewrite cons_middle, app_assoc. apply Hall. exact Hj.
        -- right. exists (S k), el, sel0. simpl.
           repeat split; try assumption;
             [rewrite <- app_assoc; reflexivity|rewrite cons_middle, app_assoc; exact Hhit|].
           intros [|j] sel' Hlt Hj; simpl in *.
           ++ injection Hj as <-. rewrite app_nil_r. exact Hmiss.
           ++ rewrite cons_middle, app_assoc. apply Hall; [lia|exact Hj].
    + destruct (is_Exception e) eqn:He; [|discriminate].
      injection Htry as <- <-. apply IH in Hrun. clear IH.
      assert (Hmiss : missed E t sel) by (right; eauto).
      destruct Hrun as [(-> & -> & -> & Hall)|(k & el & sel0 & -> & -> & Hk & -> & Hhit & Hall)].
      * left. repeat split; [simpl; rewrite <- app_assoc; reflexivity|].
        intros [|j] sel' Hj; simpl in *.
        -- injection Hj as <-. rewrite app_nil_r. exact Hmiss.
        -- rewrite cons_middle, app_assoc. apply Hall. exact Hj.
      * right. exists (S k), el, sel0. simpl.
        repeat split; try assumption;
          [rewrite <- app_assoc; reflexivity|rewrite cons_middle, app_assoc; exact Hhit|].
        intros [|j] sel' Hlt Hj; simpl in *.
        -- injection Hj as <-. rewrite app_nil_r. exact Hmiss.
        -- rewrite cons_middle, app_assoc. apply Hall; [lia|exact Hj].
Qed.

(** First match wins.  [find_file_input] queries the selectors of
    FILE_INPUT_SELECTORS in order and stops at the first query that brings
    an element, which it returns with its selector; every selector before
    it was queried and brought nothing (no element, or an exception that
    was caught).  It returns (None, None) only after all four selectors
    have been queried in vain. *)
Theorem find_file_input_first_match_wins (E : Env) (t t' : trace)
    (file_input : option Elem) (used_sel : option string) :
  find_file_input E t = (Ok (file_input, used_sel), t') ->
  (file_input = None /\ used_sel = None
   /\ t' = t ++ map EvQuerySelector FILE_INPUT_SELECTORS
   /\ forall (j : nat) (sel' : string),
        FILE_INPUT_SELECTORS !! j = Some sel' ->
        missed E (t ++ map EvQuerySelector (take j FILE_INPUT_SELECTORS)) sel')
  \/ (exists (k : nat) (el : Elem) (sel : string),
        file_input = Some el /\ used_sel = Some sel
        /\ FILE_INPUT_SELECTORS !! k = Some sel
        /\ t' = t ++ map EvQuerySelector (take (S k) FILE_INPUT_SELECTORS)
        /\ page_query_selector E
             (t ++ map EvQuerySelector (take k FILE_INPUT_SELECTORS)) sel = Ok (Some el)
        /\ forall (j : nat) (sel' : string),
             (j < k)%nat -> FILE_INPUT_SELECTORS !! j = Some sel' ->
             missed E (t ++ map EvQuerySelector (take j FILE_INPUT_SELECTORS)) sel').
Proof. apply find_file_input_from_first_match. Qed.

Lemma find_file_input_first_match_wins_witness :
  find_file_input
    (sample_env None
       (fun t sel => if decide (sel = "input#uploadFiles") then Ok (Some 7%nat)
                     else if decide (sel = first_file_selector)
                          then Raise closed_page_error else Ok None)
       (fun _ _ => Ok []) (fun _ _ _ => Ok None) true) []
  = (Ok (Some 7%nat, Some "input#uploadFiles"),
     map EvQuerySelector (take 3 FILE_INPUT_SELECTORS)).
Proof.
  set (E := sample_env _ _ _ _ _).
  destruct (find_file_input_first_match_wins E []
              (map EvQuerySelector (take 3 FILE_INPUT_SELECTORS))
              (Some 7%nat) (Some "input#uploadFiles"))
    as [(Hnone & _)|(k & el & sel & _)].
  - vm_compute. reflexivity.
  - discriminate.
  - vm_compute. reflexivity.
Defined.

(** [find_file_input], [click_upload], the album-title probing and the
    loop over the result anchors never end in an exception that
    [except Exception] catches, whatever the page does. *)
Theorem probing_swallows_exceptions (E : Env) :
  swallows (find_file_input E)
  /\ swallows (click_upload E)
  /\ (forall (album_title : option string) (cond : bool),
        swallows (fill_album_title E album_title cond))
  /\ (forall (anchors : list Elem) (found : gset string),
        swallows (scan_anchors E anchors found)).
Proof.
  split; [apply find_file_input_swallows|]. split; [apply click_upload_swallows|].
  split; [apply fill_album_title_swallows|apply scan_anchors_swallows].
Qed.

Lemma probing_swallows_exceptions_witness :
  is_Exception closed_page_error = true
  /\ find_file_input raising_env []
     = (Ok (None, None), map EvQuerySelector FILE_INPUT_SELECTORS)
  /\ (click_upload raising_env []).1 <> Raise closed_page_error.
Proof.
  destruct (probing_swallows_exceptions raising_env) as (_ & Hclick & _).
  split; [reflexivity|]. split; [vm_compute; reflexivity|].
  intros Hraise.
  assert (Hfalse : is_Exception closed_page_error = false).
  { apply (Hclick [] closed_page_error (click_upload raising_env []).2).
    rewrite <- Hraise. destruct (click_upload raising_env []). reflexivity. }
  discriminate.
Defined.

Lemma click_upload_from_outcome (E : Env) (sels : list string) (t t' : trace)
    (clicked : bool) :
  click_upload_from E sels t = (Ok clicked, t') ->
  (clicked = true
   /\ exists (t0 : trace) (b : Elem), t' = t0 ++ [EvClick b] /\ el_click E t0 b = Ok tt)
  \/ (exists t0 : trace,
        t' = t0 ++ [EvPress "Enter"]
        /\ ((clicked = true /\ keyboard_press E t0 "Enter" = Ok tt)
            \/ (clicked = false
                /\ exists e, keyboard_press E t0 "Enter" = Raise e
                             /\ is_Exception e = true))).
Proof.
  revert t. induction sels as [|sel rest IH]; intros t Hrun; simpl in Hrun.
  - right. exists t. unfold try_except, bind, press, perform, ret in Hrun.
    destruct (keyboard_press E t "Enter") as [[]|e] eqn:Hpress.
    + injection Hrun as <- <-. auto.
    + destruct (is_Exception e) eqn:He; [|discriminate].
      injection Hrun as <- <-. split; [reflexivity|]. right. eauto.
  - apply bind_Ok_inv in Hrun as (done & t1 & Htry & Hrun).
    destruct done; [|apply IH in Hrun; exact Hrun].
    injection Hrun as <- <-. left. split; [reflexivity|].
    unfold try_except, bind, query_selector, click, perform, ret in Htry.
    destruct (page_query_selector E t sel) as [[b|]|e].
    + destruct (el_click E (t ++ [EvQuerySelector sel]) b) as [[]|e] eqn:Hclick.
      * injection Htry as <-. eauto.
      * destruct (is_Exception e); discriminate.
    + discriminate.
    + destruct (is_Exception e); discriminate.
Qed.

(** [click_upload] ends on the first click that succeeds and then
    returns True; when no click succeeded it presses Enter, and returns
    False only if that key press raised an exception (which it catches). *)
Theorem click_upload_outcome (E : Env) (t t' : trace) (clicked : bool) :
  click_upload E t = (Ok clicked, t') ->
  (clicked = true
   /\ exists (t0 : trace) (b : Elem), t' = t0 ++ [EvClick b] /\ el_click E t0 b = Ok tt)
  \/ (exists t0 : trace,
        t' = t0 ++ [EvPress "Enter"]
        /\ ((clicked = true /\ keyboard_press E t0 "Enter" = Ok tt)
            \/ (clicked = false
                /\ exists e, keyboard_press E t0 "Enter" = Raise e
                             /\ is_Exception e = true))).
Proof. apply click_upload_from_outcome. Qed.

Lemma click_upload_outcome_witness :
  click_upload blank_env []
  = (Ok true, map EvQuerySelector UPLOAD_BUTTON_SELECTORS ++ [EvPress "Enter"]).
Proof.
  destruct (click_upload_outcome blank_env []
              (map EvQuerySelector UPLOAD_BUTTON_SELECTORS ++ [EvPress "Enter"]) true)
    as [(_ & t0 & b & Ht0 & _)|(t0 & Ht0 & _)].
  - vm_compute. reflexivity.
  - vm_compute. reflexivity.
  - vm_compute. reflexivity.
Defined.

(** ** Further properties of upload_files *)

Ltac no_attempt_steps E :=
  unfold async_playwright, launch, new_page, goto, close, evaluate, print,
    set_input_files;
  repeat (first [ apply fill_album_title_no_attempt
                | apply click_upload_no_attempt
                | apply collect_result_links_no_attempt
                | apply find_file_input_no_attempt
                | apply upload_each_no_attempt
                | emits_step; try reflexivity ]).

Lemma emits_extends {A} (P : Event -> Prop) (m : M A) (t t' : trace) (r : Res A) :
  emits P m -> m t = (r, t') -> exists evs, t' = t ++ evs.
Proof. intros Hm Hrun. destruct (Hm _ _ _ Hrun) as (evs & -> & _). eauto. Qed.

(** However an attempt ends, by a return or by an exception, once
    playwright has started it is left again, as the last thing the
    attempt does; when playwright fails to start nothing else is done.
    On a return, the browser was closed just before. *)
Theorem upload_files_session_ends (E : Env) (avif_files : list string)
    (album_title : option string) (headful : bool) (t t' : trace)
    (r : Res (list string)) :
  upload_files E avif_files album_title headful t = (r, t') ->
  (playwright_start E (t ++ [EvUploadFiles avif_files album_title headful]) = Ok tt ->
   exists mid,
     t' = t ++ [EvUploadFiles avif_files album_title headful; EvPlaywrightStart]
            ++ mid ++ [EvPlaywrightStop])
  /\ (forall e,
        playwright_start E (t ++ [EvUploadFiles avif_files album_title headful]) = Raise e ->
        r = Raise e
        /\ t' = t ++ [EvUploadFiles avif_files album_title headful; EvPlaywrightStart])
  /\ (forall l,
        r = Ok l ->
        exists mid,
          t' = t ++ session_start avif_files album_title headful
                 ++ mid ++ [EvClose; EvPlaywrightStop]).
Proof.
  unfold upload_files, async_playwright. intros Hrun.
  rewrite (bind_Ok _ _ t (t ++ [EvUploadFiles avif_files album_title headful]) tt eq_refl)
    in Hrun.
  rewrite bind_unfold in Hrun. unfold perform at 1 in Hrun.
  destruct (playwright_start E (t ++ [EvUploadFiles avif_files album_title headful]))
    as [[]|e0] eqn:Hstart.
  - unfold with_exit in Hrun.
    match type of Hrun with
    | (let '(_, _) := ?b ?t0 in _) = _ =>
        destruct (b t0) as [rb tb] eqn:Hbody;
        assert (Hem : emits no_attempt b) by no_attempt_steps E
    end.
    destruct (emits_extends _ _ _ _ _ Hem Hbody) as (evs & ->).
    assert (Ht' : t' = ((t ++ [EvUploadFiles avif_files album_title headful])
                        ++ [EvPlaywrightStart]) ++ evs ++ [EvPlaywrightStop]).
    { unfold perform in Hrun.
      destruct (playwright_stop E _) as [[]|e1]; injection Hrun as _ <-;
        rewrite <- !app_assoc; reflexivity. }
    split; [|split].
    + intros _. exists evs. rewrite Ht', <- !app_assoc. reflexivity.
    + intros e He. discriminate.
    + intros l ->.
      assert (Hrb : rb = Ok l).
      { unfold perform in Hrun. destruct (playwright_stop E _) as [[]|e1];
          [injection Hrun as -> _; reflexivity|discriminate]. }
      subst rb. clear Hrun Hem.
      apply bind_Ok_inv in Hbody as (u1 & t1 & H1 & Hbody).
      apply bind_Ok_inv in Hbody as (u2 & t2 & H2 & Hbody).
      apply bind_Ok_inv in Hbody as (u3 & t3 & H3 & Hbody).
      unfold launch, perform in H1. injection H1 as _ <-.
      unfold new_page, perform in H2. injection H2 as _ <-.
      unfold goto, perform in H3. injection H3 as _ <-.
      apply bind_Ok_inv in Hbody as ([file_input used_sel] & t4 & H4 & Hbody).
      destruct (emits_extends _ _ _ _ _ (find_file_input_no_attempt E) H4) as (evs4 & ->).
      assert (Hclose : exists mid0,
                ((t ++ [EvUploadFiles avif_files album_title headful])
                 ++ [EvPlaywrightStart]) ++ evs
                = (((((t ++ [EvUploadFiles avif_files album_title headful])
                      ++ [EvPlaywrightStart]) ++ [EvLaunch (negb headful)])
                    ++ [EvNewPage]) ++ [EvGoto HOME_URL]) ++ evs4 ++ mid0 ++ [EvClose]).
      { destruct file_input as [input|].
        - apply bind_Ok_inv in Hbody as (multiple & t5 & H5 & Hbody).
          unfold evaluate, perform in H5. injection H5 as _ <-.
          apply bind_Ok_inv in Hbody as (u6 & t6 & H6 & Hbody).
          assert (Hem6 : emits no_attempt
                    (when (negb multiple)
                       (print "File input does NOT support multiple files. Script will upload files sequentially.")))
            by no_attempt_steps E.
          destruct (emits_extends _ _ _ _ _ Hem6 H6) as (evs6 & ->).
          apply bind_Ok_inv in Hbody as (results & t7 & H7 & Hbody).
          match type of H7 with
          | ?m _ = _ => assert (Hem7 : emits no_attempt m) by no_attempt_steps E
          end.
          destruct (emits_extends _ _ _ _ _ Hem7 H7) as (evs7 & ->).
          apply bind_Ok_inv in Hbody as (u8 & t8 & H8 & Hbody).
          unfold close, perform in H8. injection H8 as _ <-.
          injection Hbody as _ Hbody. rewrite <- Hbody.
          exists ([EvEvaluate input "el => !!el.multiple"] ++ evs6 ++ evs7).
          rewrite <- !app_assoc. reflexivity.
        - apply bind_Ok_inv in Hbody as (u5 & t5 & H5 & Hbody).
          unfold print, emit in H5. injection H5 as _ <-.
          apply bind_Ok_inv in Hbody as (u6 & t6 & H6 & Hbody).
          unfold close, perform in H6. injection H6 as _ <-.
          injection Hbody as _ Hbody. rewrite <- Hbody.
          exists [EvPrint "ERROR: file input not found on postimages.org. Update selectors."].
          rewrite <- !app_assoc. reflexivity. }
      destruct Hclose as (mid0 & Hclose).
      exists (evs4 ++ mid0). rewrite Ht', app_assoc, Hclose.
      unfold session_start. rewrite <- !app_assoc. reflexivity.
  - injection Hrun as <- <-. split; [|split].
    + intros He. discriminate.
    + intros e [= <-]. split; [reflexivity|]. rewrite <- app_assoc. reflexivity.
    + intros l Hl. discriminate.
Qed.

Lemma upload_files_session_ends_witness :
  last (upload_files broken_env ["imgs/b.avif"] None false []).2 = Some EvPlaywrightStop
  /\ last (upload_files (linked_env None) ["imgs/b.avif"] None false []).2
     = Some EvPlaywrightStop.
Proof.
  split.
  - destruct (upload_files_session_ends broken_env ["imgs/b.avif"] None false []
                (upload_files broken_env ["imgs/b.avif"] None false []).2
                (upload_files broken_env ["imgs/b.avif"] None false []).1)
      as (Hstop & _ & _).
    + vm_compute. reflexivity.
    + destruct (Hstop eq_refl) as (mid & Hmid). rewrite Hmid.
      rewrite !app_assoc. apply last_snoc.
  - destruct (upload_files_session_ends (linked_env None) ["imgs/b.avif"] None false []
                (upload_files (linked_env None) ["imgs/b.avif"] None false []).2
                (upload_files (linked_env None) ["imgs/b.avif"] None false []).1)
      as (_ & _ & Hclose).
    + vm_compute. reflexivity.
    + destruct (Hclose ["https://postimg.cc/abc"]) as (mid & Hmid);
        [vm_compute; reflexivity|].
      rewrite Hmid.
      change [EvClose; EvPlaywrightStop] with ([EvClose] ++ [EvPlaywrightStop]).
      rewrite !app_assoc. apply last_snoc.
Defined.

(** ** The files handed to the file input *)

Section Probes.

Context (E : Env).

Lemma click_upload_probes : emits is_probe (click_upload E).
Proof.
  unfold click_upload. induction UPLOAD_BUTTON_SELECTORS as [|sel rest IH]; simpl.
  - unfold press. repeat emits_step; exact I.
  - unfold query_selector, click. repeat emits_step; try exact I; exact IH.
Qed.

Lemma fill_album_title_probes (album_title : option string) (cond : bool) :
  emits is_probe (fill_album_title E album_title cond).
Proof.
  unfold fill_album_title. destruct album_title as [title|]; [|apply emits_ret].
  apply emits_when. induction ALBUM_INPUT_SELECTORS as [|sel rest IH]; simpl.
  - apply emits_ret.
  - unfold query_selector, fill. repeat emits_step; try exact I; exact IH.
Qed.

Lemma poll_round_probes (found : gset string) : emits is_probe (poll_round E found).
Proof.
  unfold poll_round, query_selector_all, query_selector, get_attribute, settle,
    wait_for_timeout.
  emits_step; [emits_step; exact I|]. emits_step.
  { eapply emits_mono; [|apply scan_anchors_lookups].
    intros [] Hev; try contradiction; exact I. }
  repeat emits_step; exact I.
Qed.

Lemma collect_result_links_probes (timeout_ms : Z) :
  emits is_probe (collect_result_links E timeout_ms).
Proof.
  unfold collect_result_links. generalize (∅ : gset string) as found.
  generalize 0 as elapsed. intros elapsed found t.
  remember (Z.to_nat (timeout_ms - elapsed)) as fuel eqn:Hfuel.
  revert elapsed found t Hfuel.
  induction fuel as [fuel IH] using lt_wf_ind. intros elapsed found t Hfuel r t' Hrun.
  rewrite collect_loop_turn in Hrun.
  destruct (decide (elapsed < timeout_ms)) as [Hlt|Hge].
  - destruct (poll_round E found t) as [[[links|found1]|e] t1] eqn:Hpoll;
      destruct (poll_round_probes _ _ _ _ Hpoll) as (evs1 & -> & Hevs1).
    + injection Hrun as <- <-. eauto.
    + unfold wait_for_timeout, perform in Hrun.
      destruct (page_wait_for_timeout E (t ++ evs1) 2000) as [u|e].
      * apply (IH (Z.to_nat (timeout_ms - (elapsed + 2000)))) in Hrun
          as (evs2 & -> & Hevs2); [|lia|reflexivity].
        exists (evs1 ++ [EvWaitForTimeout 2000] ++ evs2).
        rewrite <- !app_assoc. split; [reflexivity|].
        apply Forall_app_2; [exact Hevs1|]. constructor; [exact I|exact Hevs2].
      * injection Hrun as <- <-. exists (evs1 ++ [EvWaitForTimeout 2000]).
        rewrite <- !app_assoc. split; [reflexivity|].
        apply Forall_app_2; [exact Hevs1|]. repeat constructor.
    + injection Hrun as <- <-. eauto.
  - injection Hrun as <- <-. exists []. rewrite app_nil_r. auto.
Qed.

Lemma probe_no_set_input (ev : Event) : is_probe ev -> no_set_input ev.
Proof. destruct ev; simpl; intros H; try contradiction; reflexivity. Qed.

Lemma input_files_set_app (t1 t2 : trace) :
  input_files_set (t1 ++ t2) = input_files_set t1 ++ input_files_set t2.
Proof. apply omap_app. Qed.

Lemma input_files_set_none (evs : trace) :
  Forall no_set_input evs -> input_files_set evs = [].
Proof.
  induction 1 as [|ev evs Hev _ IH]; [reflexivity|].
  unfold input_files_set in *. simpl. rewrite Hev. exact IH.
Qed.

Lemma input_files_set_probes {A} (m : M A) (t t' : trace) (r : Res A) :
  emits is_probe m -> m t = (r, t') ->
  exists evs, t' = t ++ evs /\ input_files_set evs = [].
Proof.
  intros Hm Hrun. destruct (Hm _ _ _ Hrun) as (evs & -> & Hevs).
  exists evs. split; [reflexivity|]. apply input_files_set_none.
  eapply Forall_impl; [exact Hevs|]. apply probe_no_set_input.
Qed.

(** The sequential branch hands every file to the input, one call per
    file, in order. *)
Lemma upload_each_inputs (file_input : Elem) (album_title : option string)
    (total i : Z) (files results : list string) (t t' : trace) (l : list string) :
  upload_each E file_input album_title total i files results t = (Ok l, t') ->
  exists evs, t' = t ++ evs /\ input_files_set evs = map (fun f => [f]) files.
Proof.
  revert i results t. induction files as [|f rest IH]; intros i results t Hrun;
    simpl in Hrun.
  - injection Hrun as _ <-. exists []. rewrite app_nil_r. auto.
  - apply bind_Ok_inv in Hrun as (u1 & t1 & H1 & Hrun).
    unfold print, emit in H1. injection H1 as _ <-.
    apply bind_Ok_inv in Hrun as (u2 & t2 & H2 & Hrun).
    unfold set_input_files, perform in H2. injection H2 as _ <-.
    apply bind_Ok_inv in Hrun as (u3 & t3 & H3 & Hrun).
    destruct (input_files_set_probes _ _ _ _ (fill_album_title_probes _ _) H3)
      as (evs3 & -> & Hevs3).
    apply bind_Ok_inv in Hrun as (u4 & t4 & H4 & Hrun).
    destruct (input_files_set_probes _ _ _ _ click_upload_probes H4)
      as (evs4 & -> & Hevs4).
    apply bind_Ok_inv in Hrun as (links & t5 & H5 & Hrun).
    destruct (input_files_set_probes _ _ _ _ (collect_result_links_probes _) H5)
      as (evs5 & -> & Hevs5).
    apply bind_Ok_inv in Hrun as (u6 & t6 & H6 & Hrun).
    unfold goto, perform in H6. injection H6 as _ <-.
    apply IH in Hrun as (evs7 & -> & Hevs7).
    eexists. rewrite <- !app_assoc. split; [reflexivity|].
    rewrite !input_files_set_app, Hevs3, Hevs4, Hevs5, Hevs7. reflexivity.
Qed.

End Probes.

(** What an attempt that returns has handed to the file input: nothing,
    after the error line, when no file input was found; all its files in
    one call when the input takes several files; otherwise its files one
    by one, in order.  Whenever a file input was found, every file of the
    attempt went to it exactly once. *)
Theorem upload_files_hands_each_file_once (E : Env) (avif_files : list string)
    (album_title : option string) (headful : bool) (t t' : trace) (l : list string) :
  upload_files E avif_files album_title headful t = (Ok l, t') ->
  exists evs,
    t' = t ++ evs
    /\ ((EvPrint MISSING_INPUT_LINE ∈ evs /\ input_files_set evs = [])
        \/ input_files_set evs = [avif_files]
        \/ input_files_set evs = map (fun f => [f]) avif_files).
Proof.
  unfold upload_files, async_playwright. intros Hrun.
  apply bind_Ok_inv in Hrun as (u0 & t0 & H0 & Hrun).
  unfold emit in H0. injection H0 as _ <-.
  apply bind_Ok_inv in Hrun as (u1 & t1 & H1 & Hrun).
  unfold perform in H1. injection H1 as _ <-.
  apply with_exit_Ok_inv in Hrun as (t2 & Hrun & Hstop).
  unfold perform in Hstop. injection Hstop as _ <-.
  apply bind_Ok_inv in Hrun as (u2 & t3 & H2 & Hrun).
  unfold launch, perform in H2. injection H2 as _ <-.
  apply bind_Ok_inv in Hrun as (u3 & t4 & H3 & Hrun).
  unfold new_page, perform in H3. injection H3 as _ <-.
  apply bind_Ok_inv in Hrun as (u4 & t5 & H4 & Hrun).
  unfold goto, perform in H4. injection H4 as _ <-.
  apply bind_Ok_inv in Hrun as ([file_input used_sel] & t6 & H5 & Hrun).
  destruct (find_file_input_queries E _ _ _ H5) as (evs5 & -> & Hq).
  assert (Hevs5 : input_files_set evs5 = []).
  { apply input_files_set_none. eapply Forall_impl; [exact Hq|].
    intros [] Hev; try contradiction; reflexivity. }
  destruct file_input as [input|].
  - apply bind_Ok_inv in Hrun as (multiple & t7 & H7 & Hrun).
    unfold evaluate, perform in H7. injection H7 as _ <-.
    apply bind_Ok_inv in Hrun as (u8 & t8 & H8 & Hrun).
    apply bind_Ok_inv in Hrun as (results & t9 & H9 & Hrun).
    apply bind_Ok_inv in Hrun as (u10 & t10 & H10 & Hrun).
    unfold close, perform in H10. injection H10 as _ <-.
    injection Hrun as _ <-.
    destruct multiple.
    + simpl in H8. injection H8 as _ <-.
      apply bind_Ok_inv in H9 as (v1 & s1 & G1 & H9).
      unfold print, emit in G1. injection G1 as _ <-.
      apply bind_Ok_inv in H9 as (v2 & s2 & G2 & H9).
      unfold set_input_files, perform in G2. injection G2 as _ <-.
      apply bind_Ok_inv in H9 as (v3 & s3 & G3 & H9).
      destruct (input_files_set_probes _ _ _ _ (fill_album_title_probes E _ _) G3)
        as (e3 & -> & He3).
      apply bind_Ok_inv in H9 as (clicked & s4 & G4 & H9).
      destruct (input_files_set_probes _ _ _ _ (click_upload_probes E) G4)
        as (e4 & -> & He4).
      apply bind_Ok_inv in H9 as (v5 & s5 & G5 & H9).
      match type of G5 with
      | when _ _ ?s0 = _ =>
          assert (Hs5 : exists e5, s5 = s0 ++ e5 /\ input_files_set e5 = [])
      end.
      { destruct clicked; simpl in G5; injection G5 as _ <-.
        - exists []. rewrite app_nil_r. auto.
        - eexists. split; reflexivity. }
      destruct Hs5 as (e5 & -> & He5).
      apply bind_Ok_inv in H9 as (links & s6 & G6 & H9).
      destruct (input_files_set_probes _ _ _ _ (collect_result_links_probes E _) G6)
        as (e6 & -> & He6).
      injection H9 as _ <-.
      eexists. rewrite <- !app_assoc. split; [reflexivity|]. right. left.
      rewrite !input_files_set_app, Hevs5, He3, He4, He5, He6. reflexivity.
    + simpl in H8. unfold print, emit in H8. injection H8 as _ <-.
      apply upload_each_inputs in H9 as (e9 & -> & He9).
      eexists. rewrite <- !app_assoc. split; [reflexivity|]. right. right.
      rewrite !input_files_set_app, Hevs5, He9. simpl. rewrite ?app_nil_r. reflexivity.
  - apply bind_Ok_inv in Hrun as (u7 & t7 & H7 & Hrun).
    unfold print, emit in H7. injection H7 as _ <-.
    apply bind_Ok_inv in Hrun as (u8 & t8 & H8 & Hrun).
    unfold close, perform in H8. injection H8 as _ <-.
    injection Hrun as _ <-.
    eexists. rewrite <- !app_assoc. split; [reflexivity|]. left. split.
    + rewrite !elem_of_app. right. right. right. right. right. right. left.
      apply list_elem_of_singleton. reflexivity.
    + rewrite !input_files_set_app, Hevs5. reflexivity.
Qed.

Lemma upload_files_hands_each_file_once_witness :
  input_files_set
    (upload_files single_file_env ["imgs/b.avif"; "imgs/c.avif"] None false []).2
  = [["imgs/b.avif"]; ["imgs/c.avif"]]
  /\ input_files_set
       (upload_files (linked_env None) ["imgs/b.avif"; "imgs/c.avif"] None false []).2
     = [["imgs/b.avif"; "imgs/c.avif"]].
Proof.
  split.
  - destruct (upload_files_hands_each_file_once single_file_env
                ["imgs/b.avif"; "imgs/c.avif"] None false []
                (upload_files single_file_env ["imgs/b.avif"; "imgs/c.avif"] None false []).2
                ["https://postimg.cc/abc"])
      as (evs & Hevs & _).
    + vm_compute. reflexivity.
    + vm_compute. reflexivity.
  - destruct (upload_files_hands_each_file_once (linked_env None)
                ["imgs/b.avif"; "imgs/c.avif"] None false []
                (upload_files (linked_env None) ["imgs/b.avif"; "imgs/c.avif"] None false []).2
                ["https://postimg.cc/abc"])
      as (evs & Hevs & _).
    + vm_compute. reflexivity.
    + vm_compute. reflexivity.
Defined.

(** ** Further properties of collect_result_links *)

Section Links.

Context (E : Env).

(** The anchor loop never drops a link, and only adds hrefs that hold
    one of the two host names. *)
Lemma scan_anchors_adds_links (anchors : list Elem) (found found' : gset string)
    (t t' : trace) :
  scan_anchors E anchors found t = (Ok found', t') ->
  found ⊆ found'
  /\ forall u, u ∈ found' -> u ∈ found \/ link_shaped u = true.
Proof.
  revert found t. induction anchors as [|a rest IH]; intros found t Hrun; simpl in Hrun.
  - injection Hrun as <- <-. split; [reflexivity|auto].
  - apply bind_Ok_inv in Hrun as (found1 & t1 & Htry & Hrun).
    assert (Hstep : found ⊆ found1
                    /\ forall u, u ∈ found1 -> u ∈ found \/ link_shaped u = true).
    { unfold try_except, bind, get_attribute, perform in Htry.
      destruct (el_get_attribute E t a "href") as [[h|]|e].
      - fold (link_shaped h) in Htry. destruct (link_shaped h) eqn:Hh;
          injection Htry as <- <-.
        + split; [set_solver|]. intros u Hu.
          apply elem_of_union in Hu as [Hu|Hu]; [|auto].
          apply elem_of_singleton in Hu. subst u. auto.
        + split; [reflexivity|auto].
      - injection Htry as <- <-. split; [reflexivity|auto].
      - destruct (is_Exception e); [|discriminate].
        injection Htry as <- <-. split; [reflexivity|auto]. }
    destruct Hstep as (Hsub1 & Hnew1). destruct (IH _ _ Hrun) as (Hsub2 & Hnew2).
    split; [set_solver|]. intros u Hu.
    destruct (Hnew2 u Hu) as [Hu1|Hu1]; [apply Hnew1; exact Hu1|auto].
Qed.

Lemma link_shaped_nonempty (u : string) : link_shaped u = true -> u <> EmptyString.
Proof. intros H ->. discriminate. Qed.

Lemma settle_links (found : gset string) (links : list string) (t t' : trace) :
  settle E found t = (Ok (Return links), t') -> links = elements found.
Proof.
  unfold settle. destruct (bool_decide (found ≠ ∅)); [|discriminate].
  intros H. apply bind_Ok_inv in H as (u & t1 & _ & [= <- <-]). reflexivity.
Qed.

(** What a round returns: duplicate-free, non-empty strings. *)
Lemma poll_round_links (links : list string) (t t' : trace) :
  poll_round E ∅ t = (Ok (Return links), t') ->
  NoDup links /\ forall u, u ∈ links -> u <> EmptyString.
Proof.
  unfold poll_round. intros H.
  apply bind_Ok_inv in H as (anchors & t1 & _ & H).
  apply bind_Ok_inv in H as (found1 & t2 & Hscan & H).
  apply bind_Ok_inv in H as (album_anchor & t3 & _ & H).
  apply scan_anchors_adds_links in Hscan as (_ & Hnew).
  assert (Hfound1 : forall u, u ∈ elements found1 -> u <> EmptyString).
  { intros u Hu. apply elem_of_elements in Hu.
    destruct (Hnew u Hu) as [Hu0|Hu0]; [set_solver|].
    apply link_shaped_nonempty. exact Hu0. }
  assert (Hsettle : forall t0, settle E found1 t0 = (Ok (Return links), t') ->
            NoDup links /\ forall u, u ∈ links -> u <> EmptyString).
  { intros t0 Hs. apply settle_links in Hs. subst links.
    split; [apply NoDup_elements|exact Hfound1]. }
  destruct album_anchor as [a|]; [|eapply Hsettle; eassumption].
  apply bind_Ok_inv in H as (href & t4 & _ & H).
  destruct href as [h|]; [|eapply Hsettle; eassumption].
  destruct (truthy_str h) eqn:Hh; [|eapply Hsettle; eassumption].
  injection H as <- <-. split; [apply NoDup_elements|].
  intros u Hu. apply elem_of_elements, elem_of_union in Hu as [Hu|Hu].
  - apply elem_of_singleton in Hu. subst u. intros ->. discriminate.
  - apply Hfound1. apply elem_of_elements. exact Hu.
Qed.

Lemma collect_loop_links (timeout_ms : Z) (fuel : nat) :
  forall (elapsed : Z) (t t' : trace) (links : list string),
    fuel = Z.to_nat (timeout_ms - elapsed) ->
    collect_loop E timeout_ms elapsed ∅ t = (Ok links, t') ->
    NoDup links /\ forall u, u ∈ links -> u <> EmptyString.
Proof.
  induction fuel as [fuel IH] using lt_wf_ind. intros elapsed t t' links Hfuel Hrun.
  rewrite collect_loop_turn in Hrun.
  destruct (decide (elapsed < timeout_ms)) as [Hlt|Hge].
  - destruct (poll_round E ∅ t) as [[[links1|found1]|e] t1] eqn:Hpoll.
    + injection Hrun as <- <-. eapply poll_round_links. eassumption.
    + apply poll_round_continue in Hpoll as (-> & _).
      destruct (wait_for_timeout E 2000 t1) as [[u|e] t2]; [|discriminate].
      eapply (IH (Z.to_nat (timeout_ms - (elapsed + 2000)))); [lia|reflexivity|eassumption].
    + discriminate.
  - injection Hrun as <- <-. rewrite elements_empty. split; [constructor|].
    intros u Hu. inversion Hu.
Qed.

End Links.

(** [collect_result_links] returns a list without duplicates that holds
    no empty string. *)
Theorem collect_result_links_duplicate_free (E : Env) (timeout_ms : Z) (t t' : trace)
    (links : list string) :
  collect_result_links E timeout_ms t = (Ok links, t') ->
  NoDup links /\ forall u, u ∈ links -> u <> EmptyString.
Proof.
  intros Hrun. eapply (collect_loop_links E timeout_ms _ 0); [reflexivity|exact Hrun].
Qed.

Lemma collect_result_links_duplicate_free_witness :
  (collect_result_links (linked_env None) 4000 []).1 = Ok ["https://postimg.cc/abc"].
Proof.
  destruct (collect_result_links_duplicate_free (linked_env None) 4000 []
              (collect_result_links (linked_env None) 4000 []).2
              ["https://postimg.cc/abc"]) as [_ _].
  - vm_compute. reflexivity.
  - vm_compute. reflexivity.
Defined.

(** The loop over the result anchors keeps every link it already had
    and adds only hrefs that are not empty and hold the text
    postimages.org or postimg.cc. *)
Theorem scan_anchors_adds_only_links (E : Env) (anchors : list Elem)
    (found found' : gset string) (t t' : trace) :
  scan_anchors E anchors found t = (Ok found', t') ->
  found ⊆ found'
  /\ forall u, u ∈ found' -> u ∈ found \/ link_shaped u = true.
Proof. apply scan_anchors_adds_links. Qed.

Lemma scan_anchors_adds_only_links_witness :
  (scan_anchors
     (sample_env None (fun _ _ => Ok None) (fun _ _ => Ok [])
        (fun _ el _ => match el with
                       | 1%nat => Ok (Some "https://postimg.cc/abc")
                       | 2%nat => Ok (Some "https://example.org/other")
                       | 3%nat => Raise closed_page_error
                       | _ => Ok None
                       end) true)
     [1%nat; 2%nat; 3%nat; 4%nat] ∅ []).1
  = Ok {["https://postimg.cc/abc"]}.
Proof.
  set (E := sample_env _ _ _ _ _).
  destruct (scan_anchors_adds_only_links E [1%nat; 2%nat; 3%nat; 4%nat] ∅
              {["https://postimg.cc/abc"]} []
              (scan_anchors E [1%nat; 2%nat; 3%nat; 4%nat] ∅ []).2) as [_ _].
  - vm_compute. reflexivity.
  - vm_compute. reflexivity.
Defined.

(** ** The time spent polling *)

Section Waits.

Context (E : Env).

Lemma settle_trace {found : gset string} {t t' : trace} {r : Res round} :
  settle E found t = (r, t') -> t' = t \/ t' = t ++ [EvWaitForTimeout 2000].
Proof.
  unfold settle. destruct (bool_decide (found ≠ ∅)).
  - unfold bind, wait_for_timeout, perform, ret.
    destruct (page_wait_for_timeout E t 2000); intros [= <- <-]; auto.
  - intros [= <- <-]. auto.
Qed.

(** A round looks the page up and then waits at most once. *)
Lemma poll_round_trace (found : gset string) (t t' : trace) (r : Res round) :
  poll_round E found t = (r, t') ->
  exists evs,
    Forall is_lookup evs
    /\ (t' = t ++ evs \/ t' = t ++ evs ++ [EvWaitForTimeout 2000]).
Proof.
  unfold poll_round. intros H.
  apply bind_inv in H as [(anchors & t1 & H1 & H)|(e & H1 & _)];
    unfold query_selector_all, perform in H1; injection H1 as _ <-;
    [|exists [EvQuerySelectorAll RESULT_ANCHORS_SELECTOR]; split;
      [repeat constructor|auto]].
  apply bind_inv in H as [(found1 & t2 & H2 & H)|(e & H2 & _)];
    destruct (scan_anchors_lookups E _ _ _ _ _ H2) as (evs2 & -> & Hevs2);
    [|exists ([EvQuerySelectorAll RESULT_ANCHORS_SELECTOR] ++ evs2); split;
      [apply Forall_app_2; [repeat constructor|exact Hevs2]
      |left; rewrite <- app_assoc; reflexivity]].
  assert (Hbase : Forall is_lookup
            ([EvQuerySelectorAll RESULT_ANCHORS_SELECTOR] ++ evs2
             ++ [EvQuerySelector ALBUM_ANCHOR_SELECTOR])).
  { apply Forall_app_2; [repeat constructor|].
    apply Forall_app_2; [exact Hevs2|repeat constructor]. }
  apply bind_inv in H as [(album_anchor & t3 & H3 & H)|(e & H3 & _)];
    unfold query_selector, perform in H3; injection H3 as _ <-;
    [|eexists; split; [exact Hbase|left; rewrite <- !app_assoc; reflexivity]].
  assert (Hsettle : forall evs t0, Forall is_lookup evs -> t0 = t ++ evs ->
            settle E found1 t0 = (r, t') ->
            exists evs',
              Forall is_lookup evs'
              /\ (t' = t ++ evs' \/ t' = t ++ evs' ++ [EvWaitForTimeout 2000])).
  { intros evs t0 Hevs -> Hs. exists evs. split; [exact Hevs|].
    destruct (settle_trace Hs) as [->| ->]; [auto|right; rewrite <- app_assoc; reflexivity]. }
  destruct album_anchor as [a|].
  - assert (Hattr : Forall is_lookup
              (([EvQuerySelectorAll RESULT_ANCHORS_SELECTOR] ++ evs2
                ++ [EvQuerySelector ALBUM_ANCHOR_SELECTOR]) ++ [EvGetAttribute a "href"])).
    { apply Forall_app_2; [exact Hbase|repeat constructor]. }
    apply bind_inv in H as [(href & t4 & H4 & H)|(e & H4 & _)];
      unfold get_attribute, perform in H4; injection H4 as _ <-;
      [|eexists; split; [exact Hattr|left; rewrite <- !app_assoc; reflexivity]].
    assert (Hs : settle E found1
              ((((t ++ [EvQuerySelectorAll RESULT_ANCHORS_SELECTOR]) ++ evs2)
                ++ [EvQuerySelector ALBUM_ANCHOR_SELECTOR]) ++ [EvGetAttribute a "href"])
            = (r, t')
            \/ t' = (((t ++ [EvQuerySelectorAll RESULT_ANCHORS_SELECTOR]) ++ evs2)
                     ++ [EvQuerySelector ALBUM_ANCHOR_SELECTOR])
                    ++ [EvGetAttribute a "href"]).
    { destruct href as [h|]; [|auto]. destruct (truthy_str h); [|auto].
      injection H as _ <-. auto. }
    destruct Hs as [Hs| ->].
    + eapply Hsettle; [exact Hattr| |exact Hs]. rewrite <- !app_assoc. reflexivity.
    + eexists. split; [exact Hattr|]. left. rewrite <- !app_assoc. reflexivity.
  - eapply Hsettle; [exact Hbase| |exact H]. rewrite <- !app_assoc. reflexivity.
Qed.

Lemma filter_poll_wait_lookups (evs : list Event) :
  Forall is_lookup evs -> filter is_poll_wait evs = [].
Proof.
  induction 1 as [|ev evs Hev _ IH]; [reflexivity|].
  rewrite filter_cons. destruct (decide (is_poll_wait ev)) as [Hw|_]; [|exact IH].
  unfold is_poll_wait in Hw. subst ev. contradiction.
Qed.

Lemma poll_rounds_succ (x : Z) : 0 < x -> poll_rounds x = S (poll_rounds (x - 2000)).
Proof.
  intros Hx. unfold poll_rounds.
  replace (x + 1999) with ((x - 2000 + 1999) + 1 * 2000) by lia.
  rewrite Z.div_add by lia.
  assert (0 <= (x - 2000 + 1999) / 2000) by (apply Z.div_pos; lia). lia.
Qed.

Lemma collect_loop_waits (timeout_ms : Z) (fuel : nat) :
  forall (elapsed : Z) (found : gset string) (t t' : trace) (r : Res (list string)),
    fuel = Z.to_nat (timeout_ms - elapsed) ->
    collect_loop E timeout_ms elapsed found t = (r, t') ->
    exists evs,
      t' = t ++ evs
      /\ Forall (fun ev => is_lookup ev \/ is_poll_wait ev) evs
      /\ (length (filter is_poll_wait evs) <= poll_rounds (timeout_ms - elapsed))%nat.
Proof.
  induction fuel as [fuel IH] using lt_wf_ind.
  intros elapsed found t t' r Hfuel Hrun.
  rewrite collect_loop_turn in Hrun.
  destruct (decide (elapsed < timeout_ms)) as [Hlt|Hge].
  - rewrite (poll_rounds_succ (timeout_ms - elapsed)) by lia.
    assert (Hround : forall r1 t1, poll_round E found t = (r1, t1) ->
              exists evs,
                t1 = t ++ evs
                /\ Forall (fun ev => is_lookup ev \/ is_poll_wait ev) evs
                /\ (length (filter is_poll_wait evs) <= 1)%nat).
    { intros r1 t1 Hp. apply poll_round_trace in Hp as (evs & Hevs & [->| ->]).
      - exists evs. split; [reflexivity|]. split.
        + eapply Forall_impl; [exact Hevs|tauto].
        + rewrite (filter_poll_wait_lookups evs Hevs). simpl. lia.
      - exists (evs ++ [EvWaitForTimeout 2000]). split; [reflexivity|]. split.
        + apply Forall_app_2; [eapply Forall_impl; [exact Hevs|tauto]|].
          constructor; [right; reflexivity|constructor].
        + rewrite filter_app, (filter_poll_wait_lookups evs Hevs). simpl. lia. }
    destruct (poll_round E found t) as [[[links1|found1]|e] t1] eqn:Hpoll.
    + injection Hrun as <- <-. destruct (Hround _ _ eq_refl) as (evs & -> & Hevs & Hn).
      exists evs. repeat split; [exact Hevs|lia].
    + apply poll_round_continue in Hpoll as (-> & evs1 & -> & Hevs1).
      unfold wait_for_timeout, perform in Hrun.
      assert (Hlook : Forall (fun ev => is_lookup ev \/ is_poll_wait ev)
                        (evs1 ++ [EvWaitForTimeout 2000])).
      { apply Forall_app_2; [eapply Forall_impl; [exact Hevs1|tauto]|].
        constructor; [right; reflexivity|constructor]. }
      destruct (page_wait_for_timeout E (t ++ evs1) 2000) as [u|e].
      * apply (IH (Z.to_nat (timeout_ms - (elapsed + 2000)))) in Hrun
          as (evs2 & -> & Hevs2 & Hn); [|lia|reflexivity].
        exists ((evs1 ++ [EvWaitForTimeout 2000]) ++ evs2).
        rewrite <- !app_assoc. split; [reflexivity|]. split.
        -- rewrite app_assoc. apply Forall_app_2; assumption.
        -- rewrite !filter_app, !length_app, (filter_poll_wait_lookups evs1 Hevs1).
           replace (timeout_ms - elapsed - 2000) with (timeout_ms - (elapsed + 2000))
             by lia.
           simpl. lia.
      * injection Hrun as <- <-. exists (evs1 ++ [EvWaitForTimeout 2000]).
        rewrite <- !app_assoc. split; [reflexivity|]. split; [exact Hlook|].
        rewrite filter_app, length_app, (filter_poll_wait_lookups evs1 Hevs1).
        simpl. lia.
    + injection Hrun as <- <-. destruct (Hround _ _ eq_refl) as (evs & -> & Hevs & Hn).
      exists evs. repeat split; [exact Hevs|lia].
  - injection Hrun as <- <-. exists []. rewrite app_nil_r.
    repeat split; [constructor|simpl; lia].
Qed.

End Waits.

(** However it ends, [collect_result_links] only looks the page up and
    waits 2000 ms at a time, and it waits at most ceil(timeout / 2000)
    times. *)
Theorem collect_result_links_wait_bound (E : Env) (timeout_ms : Z) (t t' : trace)
    (r : Res (list string)) :
  collect_result_links E timeout_ms t = (r, t') ->
  exists evs,
    t' = t ++ evs
    /\ Forall (fun ev => is_lookup ev \/ is_poll_wait ev) evs
    /\ (length (filter is_poll_wait evs) <= poll_rounds timeout_ms)%nat.
Proof.
  intros Hrun.
  destruct (collect_loop_waits E timeout_ms _ 0 ∅ t t' r eq_refl Hrun)
    as (evs & Hevs & Hall & Hn).
  exists evs. rewrite Z.sub_0_r in Hn. repeat split; assumption.
Qed.

Lemma collect_result_links_wait_bound_witness :
  poll_rounds 120000 = 60%nat
  /\ poll_rounds 60000 = 30%nat
  /\ length (filter is_poll_wait (collect_result_links blank_env 120000 []).2) = 60%nat.
Proof.
  destruct (collect_result_links_wait_bound blank_env 120000 []
              (collect_result_links blank_env 120000 []).2
              (collect_result_links blank_env 120000 []).1)
    as (evs & _ & _ & _).
  - vm_compute. reflexivity.
  - repeat split; vm_compute; reflexivity.
Defined.

(** ** Further properties of the pure steps *)

Lemma dedupe_fold_nodup (l acc : list string) :
  NoDup (acc ++ l) -> fold_left dedupe_step l acc = acc ++ l.
Proof.
  revert acc. induction l as [|x l IH]; intros acc Hnd; simpl.
  - rewrite app_nil_r. reflexivity.
  - assert (Hx : x ∉ acc).
    { apply NoDup_app in Hnd as (_ & Hdisj & _). intros Hin.
      apply (Hdisj x Hin). left. }
    unfold dedupe_step at 2. destruct (decide (x ∈ acc)); [contradiction|].
    rewrite IH; rewrite <- app_assoc; [reflexivity|exact Hnd].
Qed.

(** Deduplication leaves a list without duplicates as it is, and so
    deduplicating twice is deduplicating once. *)
Theorem dedupe_fixes_duplicate_free (results : list string) :
  (NoDup results -> dedupe results = results)
  /\ dedupe (dedupe results) = dedupe results.
Proof.
  assert (Hfix : forall l, NoDup l -> dedupe l = l).
  { intros l Hnd. apply (dedupe_fold_nodup l []). exact Hnd. }
  split; [apply Hfix|]. apply Hfix. apply dedupe_spec.
Qed.

Lemma dedupe_fixes_duplicate_free_witness :
  dedupe ["https://postimg.cc/a"; "https://postimg.cc/b"]
  = ["https://postimg.cc/a"; "https://postimg.cc/b"].
Proof.
  destruct (dedupe_fixes_duplicate_free ["https://postimg.cc/a"; "https://postimg.cc/b"])
    as [Hfix _].
  apply Hfix. repeat constructor; vm_compute; intros H; inversion H; subst;
    match goal with Hin : _ ∈ _ |- _ => inversion Hin end.
Defined.

Lemma sorted_unique (l1 l2 : list string) :
  StronglySorted (fun a b => String.leb a b = true) l1 ->
  StronglySorted (fun a b => String.leb a b = true) l2 ->
  Permutation l1 l2 -> l1 = l2.
Proof.
  intros H1. revert l2. induction H1 as [|a l1 Hs1 IH Ha]; intros l2 H2 Hperm.
  - apply Permutation_nil in Hperm. subst. reflexivity.
  - destruct H2 as [|b l2 Hs2 Hb].
    + apply Permutation_sym, Permutation_nil in Hperm. discriminate.
    + assert (Hab : a = b).
      { assert (Hina : In a (b :: l2)) by (eapply Permutation_in; [exact Hperm|left; reflexivity]).
        assert (Hinb : In b (a :: l1))
          by (eapply Permutation_in; [symmetry; exact Hperm|left; reflexivity]).
        destruct Hina as [->|Hina]; [reflexivity|].
        destruct Hinb as [->|Hinb]; [reflexivity|].
        rewrite List.Forall_forall in Ha, Hb.
        apply String.leb_antisym; [apply Ha; exact Hinb|apply Hb; exact Hina]. }
      subst b. f_equal. apply IH; [exact Hs2|].
      eapply Permutation_cons_inv. exact Hperm.
Qed.

(** The list [collect_avif_files] returns does not depend on the order
    in which the directories are scanned: two file systems whose traversals
    yield the same paths, in any order, give the same list. *)
Theorem collect_avif_files_scan_order (E1 E2 : Env) (base_dir : string) (n1 n2 : node) :
  Path E1 base_dir = Path E2 base_dir ->
  fs_lookup E1 (Path E1 base_dir) = Some n1 ->
  fs_lookup E2 (Path E2 base_dir) = Some n2 ->
  Permutation (rglob_star ".avif" n1) (rglob_star ".avif" n2) ->
  collect_avif_files E1 base_dir = collect_avif_files E2 base_dir.
Proof.
  intros Hpath H1 H2 Hperm.
  rewrite (collect_avif_files_found E1 base_dir n1 H1),
    (collect_avif_files_found E2 base_dir n2 H2), Hpath. f_equal.
  apply sorted_unique; try apply sorted_StronglySorted.
  rewrite !sorted_Permutation. apply Permutation_map. exact Hperm.
Qed.

Lemma collect_avif_files_scan_order_witness :
  collect_avif_files
    {| Path := Path blank_env;
       fs_lookup := fun _ =>
         Some (Dir [ ("sub", Dir [ ("notes.txt", File); ("a.avif", File) ]);
                     ("b.avif", File);
                     ("c.avif", File) ]);
       stat_error := stat_error blank_env;
       environ_get := environ_get blank_env;
       playwright_start := playwright_start blank_env;
       playwright_stop := playwright_stop blank_env;
       chromium_launch := chromium_launch blank_env;
       browser_new_page := browser_new_page blank_env;
       browser_close := browser_close blank_env;
       page_goto := page_goto blank_env;
       page_query_selector := page_query_selector blank_env;
       page_query_selector_all := page_query_selector_all blank_env;
       page_wait_for_timeout := page_wait_for_timeout blank_env;
       keyboard_press := keyboard_press blank_env;
       el_get_attribute := el_get_attribute blank_env;
       el_evaluate := el_evaluate blank_env;
       el_set_input_files := el_set_input_files blank_env;
       el_fill := el_fill blank_env;
       el_click := el_click blank_env |} "imgs"
  = Ok ["imgs/b.avif"; "imgs/c.avif"; "imgs/sub/a.avif"].
Proof.
  match goal with
  | |- collect_avif_files ?E2 _ = _ =>
      rewrite <- (collect_avif_files_scan_order blank_env E2 "imgs" sample_tree
                    (Dir [ ("sub", Dir [ ("notes.txt", File); ("a.avif", File) ]);
                           ("b.avif", File);
                           ("c.avif", File) ]))
  end.
  - vm_compute. reflexivity.
  - reflexivity.
  - vm_compute. reflexivity.
  - reflexivity.
  - vm_compute. apply perm_swap.
Defined.
